(** * pwa-install.js: the install affordance controller

    A shallow embedding of [src/pwa-install.js].  The script is a set of
    event listeners over three pieces of mutable state: the module-level
    variable [deferredPrompt], the document, and the host's queues (timers
    and the pending [await] of the click handler).  The embedding keeps
    that shape: one [state] record, one function per source function or
    listener, and a [step] function that dispatches a host event.

    The file has two parts.  The first holds the definitions: strings and
    the environment, the document as a tree of objects, the state, the
    script function by function, the host's events, and the notions the
    statements use.  The second holds the proofs: the algebra of the tree
    operations, the normal forms of the two functions that build markup,
    the invariant every event keeps, and then the properties of the
    install flow. *)

From Stdlib Require Import List String Ascii Bool Arith ZArith Lia.
Import ListNotations.
Open Scope string_scope.
Open Scope list_scope.
Open Scope nat_scope.

Set Warnings "-register-all".

(** ** Strings as the script uses them *)

Module Js.

(** [String.prototype.toLowerCase] and [toUpperCase].  The strings the
    script maps are matched against ASCII patterns only, and bytes above
    127 are left alone, so the matches below agree with the host's on
    UTF-8 input. *)
Definition lower_ascii (c : ascii) : ascii :=
  let n := nat_of_ascii c in
  if (65 <=? n) && (n <=? 90) then ascii_of_nat (n + 32) else c.

Definition upper_ascii (c : ascii) : ascii :=
  let n := nat_of_ascii c in
  if (97 <=? n) && (n <=? 122) then ascii_of_nat (n - 32) else c.

Fixpoint map_string (f : ascii -> ascii) (s : string) : string :=
  match s with
  | EmptyString => EmptyString
  | String c r => String (f c) (map_string f r)
  end.

Definition toLowerCase : string -> string := map_string lower_ascii.
Definition toUpperCase : string -> string := map_string upper_ascii.

(** [s.indexOf(pat)]: the first position of [pat] in [s], or -1. *)
Definition indexOf (s pat : string) : Z :=
  match String.index 0 pat s with
  | Some n => Z.of_nat n
  | None => (-1)%Z
  end.

(** [s] has [pat] as a substring: what a regular expression made of a
    literal does under [RegExp.prototype.test]. *)
Fixpoint includes (pat s : string) : bool :=
  String.prefix pat s ||
  match s with
  | EmptyString => false
  | String _ r => includes pat r
  end.

End Js.

(** ** The environment the script queries (read-only) *)

Record env : Type := Env {
  userAgent : string;            (* navigator.userAgent *)
  platform : string;             (* navigator.platform *)
  maxTouchPoints : nat;          (* navigator.maxTouchPoints; 0 when the host has none *)
  standalone : option bool;      (* navigator.standalone; None: no such property *)
  displayModeStandalone : bool   (* matchMedia('(display-mode: standalone)').matches *)
}.

(** [/iphone|ipad|ipod/.test(ua)] *)
Definition apple_mobile_re (ua : string) : bool :=
  Js.includes "iphone" ua || Js.includes "ipad" ua || Js.includes "ipod" ua.

(** The four constants computed at the head of [detectAndShowInstructions]
    (lines 88-92). *)
Module Detect.
Definition isIos (v : env) : bool :=
  apple_mobile_re (Js.toLowerCase (userAgent v)).

Definition isIpadOS (v : env) : bool :=
  String.eqb (platform v) "MacIntel" && (1 <? maxTouchPoints v).

Definition isMac (v : env) : bool :=
  (0 <=? Js.indexOf (Js.toUpperCase (platform v)) "MAC")%Z
  && negb (isIos v) && negb (isIpadOS v).

(** [('standalone' in navigator) && navigator.standalone], as a truth
    value. *)
Definition isInStandaloneMode (v : env) : bool :=
  match standalone v with
  | Some b => b
  | None => false
  end.
End Detect.

(** The constants of the start-up check (lines 171-177). *)
Module Startup.
Definition isStandalone (v : env) : bool :=
  displayModeStandalone v ||
  match standalone v with Some true => true | _ => false end.

Definition isIpadOS (v : env) : bool :=
  String.eqb (platform v) "MacIntel" && (1 <? maxTouchPoints v).

Definition isIos (v : env) : bool :=
  apple_mobile_re (Js.toLowerCase (userAgent v)) || isIpadOS v.

Definition isMac (v : env) : bool :=
  (0 <=? Js.indexOf (Js.toUpperCase (platform v)) "MAC")%Z.
End Startup.

(** ** The document

    Elements are objects: each has an identity ([handle]) by which the
    closures of the script keep hold of it.  The document is the tree
    under [document.body]; [elements] lists it in tree order, the order
    [getElementById] searches in. *)

(** The two closures the script registers as click listeners: the one of
    line 50, closed over [btn], and the one of line 153, closed over
    [modal]. *)
Inductive listener : Type :=
| InstallClick (btn : nat)
| CloseDialog (modal : nat).

Record element : Type := Element {
  handle : nat;
  tagName : string;
  el_id : string;                     (* the id attribute; empty: none *)
  className : string;
  title : string;
  text : string;                      (* the element's own text, spaces collapsed *)
  style : list (string * string);     (* inline style declarations *)
  onclick : list listener             (* click listeners, in registration order *)
}.

Inductive node : Type :=
| Node (el : element) (kids : list node).

Definition root (n : node) : element :=
  match n with Node el _ => el end.

Fixpoint elements (n : node) : list element :=
  match n with
  | Node el kids => el :: flat_map elements kids
  end.

Definition handles (n : node) : list nat := map handle (elements n).

(** [document.getElementById(i)]: the first element in tree order whose id
    is [i]; the result is the object, here its handle. *)
Definition getElementById (i : string) (doc : node) : option nat :=
  option_map handle (find (fun el => String.eqb (el_id el) i) (elements doc)).

(** The object behind a handle, when it is in the document. *)
Definition deref (h : nat) (doc : node) : option element :=
  find (fun el => handle el =? h) (elements doc).

(** [parent.appendChild(child)] for a [child] that is not in the document
    yet. *)
Fixpoint appendChild (parent : nat) (child : node) (n : node) : node :=
  match n with
  | Node el kids =>
      if handle el =? parent then Node el (kids ++ [child])
      else Node el (map (appendChild parent child) kids)
  end.

(** [x.remove()]: the subtree at [x] leaves the document; nothing happens
    when [x] is not in it.  The script only calls it on elements it made
    itself, never on the body. *)
Fixpoint remove (x : nat) (n : node) : node :=
  match n with
  | Node el kids =>
      Node el (filter (fun k => negb (handle (root k) =? x)) (map (remove x) kids))
  end.

(** A write to a property of the object [x]. *)
Fixpoint update (x : nat) (f : element -> element) (n : node) : node :=
  match n with
  | Node el kids =>
      Node (if handle el =? x then f el else el) (map (update x f) kids)
  end.

Fixpoint set_property (k v : string) (st : list (string * string)) : list (string * string) :=
  match st with
  | [] => [(k, v)]
  | (k', v') :: r => if String.eqb k' k then (k, v) :: r else (k', v') :: set_property k v r
  end.

Definition set_style (k v : string) (el : element) : element :=
  Element (handle el) (tagName el) (el_id el) (className el) (title el) (text el)
          (set_property k v (style el)) (onclick el).

Definition addEventListener (l : listener) (el : element) : element :=
  Element (handle el) (tagName el) (el_id el) (className el) (title el) (text el)
          (style el) (onclick el ++ [l]).

Definition get_style (k : string) (el : element) : option string :=
  option_map snd (find (fun kv => String.eqb (fst kv) k) (style el)).

(** How many elements of the document carry the id [i]. *)
Definition count_id (i : string) (doc : node) : nat :=
  List.length (filter (fun el => String.eqb (el_id el) i) (elements doc)).

(** The children of the element [x], as handles. *)
Fixpoint children_of (x : nat) (n : node) : list nat :=
  match n with
  | Node el kids =>
      if handle el =? x then map (fun k => handle (root k)) kids
      else flat_map (children_of x) kids
  end.

(** An element with no attributes, as [document.createElement] and the
    HTML parser make them. *)
Definition blank (h : nat) (tag : string) : element :=
  Element h tag "" "" "" "" [] [].

Definition leaf (h : nat) (tag cls txt : string) : node :=
  Node (Element h tag "" cls "" txt [] []) [].

(** ** The state of the script and of the host around it *)

(** The values the variable [deferredPrompt] takes: [undefined] after
    [let deferredPrompt;], a stashed [beforeinstallprompt] event (an
    object, so truthy), or [null]. *)
Inductive slot : Type :=
| Undefined
| Null
| Stashed (e : nat).

(** What [userChoice] resolves to. *)
Inductive outcome : Type :=
| accepted
| dismissed.

Definition outcome_string (o : outcome) : string :=
  match o with
  | accepted => "accepted"
  | dismissed => "dismissed"
  end.

(** The callbacks handed to [setTimeout]: lines 69, 155 and 183. *)
Inductive task : Type :=
| Animate (btn : nat)
| RemoveModal (modal : nat)
| CreateInstallButton.

(** What the script does to the outside, other than to the document. *)
Inductive effect : Type :=
| Log (msg : string)          (* console.log *)
| PreventDefault (e : nat)    (* e.preventDefault() *)
| Prompt (e : nat).           (* e.prompt() *)

Record state : Type := State {
  deferredPrompt : slot;
  document : node;                  (* the tree under document.body *)
  fresh : nat;                      (* the next unused object identity *)
  timers : list (nat * task);       (* milliseconds left, callback; in setTimeout order *)
  awaiting : list (nat * nat);      (* click handlers suspended at line 55: event, btn *)
  settled : list (nat * outcome);   (* userChoice promises that have resolved *)
  output : list effect              (* oldest first *)
}.

Definition set_deferredPrompt (d : slot) (s : state) : state :=
  State d (document s) (fresh s) (timers s) (awaiting s) (settled s) (output s).

Definition set_document (d : node) (s : state) : state :=
  State (deferredPrompt s) d (fresh s) (timers s) (awaiting s) (settled s) (output s).

Definition set_fresh (n : nat) (s : state) : state :=
  State (deferredPrompt s) (document s) n (timers s) (awaiting s) (settled s) (output s).

Definition set_timers (t : list (nat * task)) (s : state) : state :=
  State (deferredPrompt s) (document s) (fresh s) t (awaiting s) (settled s) (output s).

Definition set_awaiting (a : list (nat * nat)) (s : state) : state :=
  State (deferredPrompt s) (document s) (fresh s) (timers s) a (settled s) (output s).

Definition set_settled (r : list (nat * outcome)) (s : state) : state :=
  State (deferredPrompt s) (document s) (fresh s) (timers s) (awaiting s) r (output s).

Definition emit (x : effect) (s : state) : state :=
  State (deferredPrompt s) (document s) (fresh s) (timers s) (awaiting s) (settled s)
        (output s ++ [x]).

(** [setTimeout(t, ms)] *)
Definition setTimeout (t : task) (ms : nat) (s : state) : state :=
  set_timers (timers s ++ [(ms, t)]) s.

Definition on_document (f : node -> node) (s : state) : state :=
  set_document (f (document s)) s.

(** ** The script *)

Definition installBtnId : string := "pwaInstallBtn".

Definition dquote : string := String (ascii_of_nat 34) EmptyString.

(** The markup of line 35, parsed: the objects get the identities
    [b+1 .. b+6]. *)
Definition button_markup (b : nat) : list node :=
  [ Node (Element (b + 1) "div" "" "icon-box" "" "" [] [])
      [ Node (blank (b + 2) "svg")
          [ leaf (b + 3) "path" "" "";
            leaf (b + 4) "polyline" "" "";
            leaf (b + 5) "line" "" "" ] ];
    leaf (b + 6) "span" "app-name" "INSTALL" ].

(** [createInstallButton], lines 24-73. *)
Definition createInstallButton (s : state) : state :=
  match getElementById "taskbarContainer" (document s) with
  | None => s
  | Some taskbarContainer =>
      match getElementById installBtnId (document s) with
      | Some _ => s
      | None =>
          let b := fresh s in
          let btn :=
            Node (Element b "button" installBtnId "taskbar-item" "Install App" "" [] [])
                 (button_markup b) in
          let s := set_fresh (b + 7) s in
          let s := on_document (appendChild taskbarContainer btn) s in
          let s := on_document (update b (addEventListener (InstallClick b))) s in
          let s := on_document (update b (set_style "opacity" "0")) s in
          let s := on_document (update b (set_style "transform" "translateY(20px)")) s in
          let s := on_document (update b (set_style "transition" "all 0.5s ease")) s in
          setTimeout (Animate b) 100 s
      end
  end.

(** The callback of line 69. *)
Definition animate (btn : nat) (s : state) : state :=
  let s := on_document (update btn (set_style "opacity" "1")) s in
  on_document (update btn (set_style "transform" "translateY(0)")) s.

(** The markup of lines 109-119, parsed, under the paragraph of line 145. *)
Definition instructions_markup (h : nat) (deviceType : string) : string * list node :=
  if String.eqb deviceType "Mac" then
    ("To install on macOS (Safari): 1. Click the button 2. Select",
     [ leaf (h + 1) "br" "" "";
       leaf (h + 2) "b" "" "Share";
       Node (blank (h + 3) "svg")
         [ leaf (h + 4) "rect" "" ""; leaf (h + 5) "path" "" "" ];
       leaf (h + 6) "br" "" "";
       leaf (h + 7) "b" "" (dquote ++ "Add to Dock" ++ dquote)%string ])
  else
    ("Tap the Share button and select",
     [ Node (blank (h + 1) "svg")
         [ leaf (h + 2) "path" "" "";
           leaf (h + 3) "polyline" "" "";
           leaf (h + 4) "line" "" "" ];
       leaf (h + 5) "br" "" "";
       leaf (h + 6) "b" "" (dquote ++ "Add to Home Screen" ++ dquote)%string;
       Node (Element (h + 7) "span" "" "" "" "+" [("font-size", "16px")] []) [] ]).

Definition modal_css : list (string * string) :=
  [ ("position", "fixed"); ("bottom", "20px"); ("left", "50%");
    ("transform", "translateX(-50%)"); ("width", "90%"); ("max-width", "350px");
    ("background", "rgba(0, 0, 0, 0.95)"); ("border", "1px solid #00ff00");
    ("color", "#fff"); ("padding", "20px"); ("border-radius", "12px");
    ("z-index", "10000"); ("box-shadow", "0 0 20px rgba(0, 255, 0, 0.4)");
    ("font-family", "'Arimo', sans-serif"); ("text-align", "center");
    ("backdrop-filter", "blur(5px)") ].

(** The markup of line 143, parsed: identities [m+1 .. m+10], the close
    button last. *)
Definition modal_markup (m : nat) (deviceType : string) : list node :=
  let title := ("INSTALL ON " ++ Js.toUpperCase deviceType)%string in
  let instructions := instructions_markup (m + 2) deviceType in
  [ Node (Element (m + 1) "div" "" "" "" title
            [ ("margin-bottom", "10px"); ("font-weight", "bold");
              ("color", "#00ff00"); ("letter-spacing", "1px") ] []) [];
    Node (Element (m + 2) "p" "" "" "" (fst instructions)
            [ ("font-size", "14px"); ("margin-bottom", "15px");
              ("color", "#ddd"); ("line-height", "1.5") ] [])
         (snd instructions);
    Node (Element (m + 10) "button" "closeIosMsg" "" "" "GOT IT"
            [ ("background", "transparent"); ("border", "1px solid #fff");
              ("color", "#fff"); ("padding", "6px 20px"); ("cursor", "pointer");
              ("border-radius", "4px"); ("font-size", "12px");
              ("transition", "all 0.2s") ] []) [] ].

(** [showInstallInstructions], lines 103-157.  The argument is taken to be
    free of markup, as the three literals that the only caller passes are
    ('iPad', 'iOS', 'Mac'): line 143 splices it into the markup of the
    dialog, and here it is the text of the heading.  For such an argument
    the dialog just appended holds a close button, so the lookup of line
    153 finds one (that one or an earlier one); were it to find nothing
    the source would throw at that point, after the append. *)
Definition showInstallInstructions (deviceType : string) (s : state) : state :=
  let m := fresh s in
  let modal := Node (Element m "div" "" "" "" "" modal_css []) (modal_markup m deviceType) in
  let s := set_fresh (m + 11) s in
  let s := on_document (appendChild (handle (root (document s))) modal) s in
  match getElementById "closeIosMsg" (document s) with
  | Some close => on_document (update close (addEventListener (CloseDialog m))) s
  | None => s
  end.

(** [detectAndShowInstructions], lines 87-101. *)
Definition detectAndShowInstructions (v : env) (s : state) : state :=
  let userAgent := Js.toLowerCase (userAgent v) in
  let isIos := apple_mobile_re userAgent in
  let isIpadOS := String.eqb (platform v) "MacIntel" && (1 <? maxTouchPoints v) in
  let isMac :=
    (0 <=? Js.indexOf (Js.toUpperCase (platform v)) "MAC")%Z && negb isIos && negb isIpadOS in
  let isInStandaloneMode :=
    match standalone v with Some b => b | None => false end in
  if (isIos || isIpadOS) && negb isInStandaloneMode then
    showInstallInstructions (if isIpadOS then "iPad" else "iOS") s
  else if isMac && negb isInStandaloneMode then
    showInstallInstructions "Mac" s
  else s.

(** The click handler of line 50 from the [await] on: lines 56-58. *)
Definition install_click_resume (btn : nat) (o : outcome) (s : state) : state :=
  let s := emit (Log ("User response to the install prompt: " ++ outcome_string o)%string) s in
  let s := set_deferredPrompt Null s in
  on_document (remove btn) s.

Definition lookup {A : Type} (k : nat) (l : list (nat * A)) : option A :=
  option_map snd (find (fun p => fst p =? k) l).

(** The click handler of line 50 up to the [await]: it suspends on the
    event's [userChoice], or goes on at once when that has resolved. *)
Definition install_click (v : env) (btn : nat) (s : state) : state :=
  match deferredPrompt s with
  | Stashed e =>
      let s := emit (Prompt e) s in
      match lookup e (settled s) with
      | Some o => install_click_resume btn o s
      | None => set_awaiting (awaiting s ++ [(e, btn)]) s
      end
  | _ => detectAndShowInstructions v s
  end.

(** The click handler of line 153. *)
Definition close_dialog (modal : nat) (s : state) : state :=
  let s := on_document (update modal (set_style "opacity" "0")) s in
  setTimeout (RemoveModal modal) 300 s.

Definition run_listener (v : env) (l : listener) (s : state) : state :=
  match l with
  | InstallClick btn => install_click v btn s
  | CloseDialog modal => close_dialog modal s
  end.

Definition run_task (t : task) (s : state) : state :=
  match t with
  | Animate btn => animate btn s
  | RemoveModal modal => on_document (remove modal) s
  | CreateInstallButton => createInstallButton s
  end.

(** The [beforeinstallprompt] listener, lines 76-84. *)
Definition on_beforeinstallprompt (e : nat) (s : state) : state :=
  let s := emit (PreventDefault e) s in
  let s := set_deferredPrompt (Stashed e) s in
  let s := emit (Log "PWA Install Triggered") s in
  createInstallButton s.

(** The [appinstalled] listener, lines 160-164. *)
Definition on_appinstalled (s : state) : state :=
  let s := emit (Log "PWA was installed") s in
  match getElementById installBtnId (document s) with
  | Some btn => on_document (remove btn) s
  | None => s
  end.

(** ** The host *)

(** What the host does to the script. *)
Inductive event : Type :=
| BeforeInstallPrompt (e : nat)         (* the can-install signal, carrying the event object *)
| AppInstalled                          (* the installed signal *)
| Click (x : nat)                       (* a click dispatched at the element x *)
| UserChoice (e : nat) (o : outcome)    (* e.userChoice resolves *)
| Tick.                                 (* one millisecond passes *)

(** A click runs the listeners of its target, in order; an element that
    is not in the document cannot be clicked.  [Click x] is a click whose
    dispatch runs the listeners of [x]: a click on the icon or the label
    of the button bubbles to the button and is the event [Click] at the
    button, not an event of its own. *)
Definition on_click (v : env) (x : nat) (s : state) : state :=
  match deref x (document s) with
  | Some el => fold_left (fun s l => run_listener v l s) (onclick el) s
  | None => s
  end.

(** A promise resolves once; the handlers suspended on it go on in the
    order they suspended. *)
Definition on_userChoice (e : nat) (o : outcome) (s : state) : state :=
  match lookup e (settled s) with
  | Some _ => s
  | None =>
      let woken := filter (fun p => fst p =? e) (awaiting s) in
      let s := set_awaiting (filter (fun p => negb (fst p =? e)) (awaiting s)) s in
      let s := set_settled (settled s ++ [(e, o)]) s in
      fold_left (fun s p => install_click_resume (snd p) o s) woken s
  end.

(** One millisecond: every timer is a millisecond nearer, and those that
    are due run in the order they were set. *)
Definition on_tick (s : state) : state :=
  let aged := map (fun p => (pred (fst p), snd p)) (timers s) in
  let due := filter (fun p => fst p =? 0) aged in
  let s := set_timers (filter (fun p => negb (fst p =? 0)) aged) s in
  fold_left (fun s p => run_task (snd p) s) due s.

Definition step (v : env) (s : state) (ev : event) : state :=
  match ev with
  | BeforeInstallPrompt e => on_beforeinstallprompt e s
  | AppInstalled => on_appinstalled s
  | Click x => on_click v x s
  | UserChoice e o => on_userChoice e o s
  | Tick => on_tick s
  end.

Definition run (v : env) (s : state) (evs : list event) : state :=
  fold_left (step v) evs s.

(** The state the top level of the script leaves behind, lines 19-21 and
    171-185, on a page whose body is [page].  (Section 1 of the script,
    the worker registration, touches none of this.) *)
Definition boot (v : env) (page : node) : state :=
  let s := State Undefined page (S (list_max (handles page))) [] [] [] [] in
  let isStandalone :=
    displayModeStandalone v ||
    match standalone v with Some true => true | _ => false end in
  if negb isStandalone then
    let userAgent := Js.toLowerCase (userAgent v) in
    let isIpadOS := String.eqb (platform v) "MacIntel" && (1 <? maxTouchPoints v) in
    let isIos := apple_mobile_re userAgent || isIpadOS in
    let isMac := (0 <=? Js.indexOf (Js.toUpperCase (platform v)) "MAC")%Z in
    if isIos || isMac then setTimeout CreateInstallButton 1000 s else s
  else s.

(** ** Derived notions used in the statements *)

(** The platform classes of the dialog path: which branch of lines 95-100
    an environment selects, standalone or not. *)
Inductive platform_class : Type :=
| IPadOS
| IOS
| MacOS
| Other.

Definition classify (v : env) : platform_class :=
  if Detect.isIpadOS v then IPadOS
  else if Detect.isIos v then IOS
  else if Detect.isMac v then MacOS
  else Other.

(** The argument [detectAndShowInstructions] passes to
    [showInstallInstructions], when it calls it at all. *)
Definition instructions_for (v : env) : option string :=
  if (Detect.isIos v || Detect.isIpadOS v) && negb (Detect.isInStandaloneMode v)
  then Some (if Detect.isIpadOS v then "iPad" else "iOS")
  else if Detect.isMac v && negb (Detect.isInStandaloneMode v)
  then Some "Mac"
  else None.

(** [ua] contains [tok], letter case aside. *)
Definition has_token (tok ua : string) : bool :=
  Js.includes (Js.toLowerCase tok) (Js.toLowerCase ua).

(** [w] is the word [letters] in some mix of letter cases: [letters]
    gives each letter of the word in its lower-case and its upper-case
    form. *)
Fixpoint spells (letters : list (ascii * ascii)) (w : string) : bool :=
  match letters, w with
  | [], EmptyString => true
  | (lo, up) :: r, String c w' => (Ascii.eqb c lo || Ascii.eqb c up) && spells r w'
  | _, _ => false
  end.

Definition iphone_letters : list (ascii * ascii) :=
  [("i", "I"); ("p", "P"); ("h", "H"); ("o", "O"); ("n", "N"); ("e", "E")]%char.

Definition ipad_letters : list (ascii * ascii) :=
  [("i", "I"); ("p", "P"); ("a", "A"); ("d", "D")]%char.

Definition ipod_letters : list (ascii * ascii) :=
  [("i", "I"); ("p", "P"); ("o", "O"); ("d", "D")]%char.

(** The user agent names an Apple mobile device: somewhere in it stands
    iPhone, iPad or iPod, each letter in either case. *)
Definition names_apple_mobile (ua : string) : Prop :=
  exists pre w post,
    ua = (pre ++ w ++ post)%string /\
    (spells iphone_letters w = true \/ spells ipad_letters w = true \/
     spells ipod_letters w = true).

(** The lower-case word of [letters]. *)
Definition lower_word (letters : list (ascii * ascii)) : string :=
  string_of_list_ascii (map fst letters).

(** [p] gives one letter in its two cases, as [toLowerCase] sees them. *)
Definition case_pair (p : ascii * ascii) : Prop :=
  forall c, Js.lower_ascii c = fst p <-> c = fst p \/ c = snd p.

(** The button as [createInstallButton] leaves it in the document. *)
Definition install_button (b : nat) : node :=
  Node (Element b "button" installBtnId "taskbar-item" "Install App" ""
          [ ("opacity", "0"); ("transform", "translateY(20px)");
            ("transition", "all 0.5s ease") ]
          [InstallClick b])
       (button_markup b).

(** The dialog as [showInstallInstructions] appends it (line 151), and as
    it is once the lookup of line 153 has found the dialog's own close
    button and put the listener on it. *)
Definition dialog (m : nat) (deviceType : string) : node :=
  Node (Element m "div" "" "" "" "" modal_css []) (modal_markup m deviceType).

Definition open_dialog (m : nat) (deviceType : string) : node :=
  update (m + 10) (addEventListener (CloseDialog m)) (dialog m deviceType).

(** The dialogs of the document are the children of the body that hold a
    close button. *)
Definition is_dialog (n : node) : bool :=
  existsb (fun el => String.eqb (el_id el) "closeIosMsg") (elements n).

Definition dialogs (doc : node) : list node :=
  match doc with
  | Node _ kids => filter is_dialog kids
  end.

(** Identities are unique in the document and below the allocation mark. *)
Definition well_formed (s : state) : Prop :=
  NoDup (handles (document s)) /\
  Forall (fun h => h < fresh s) (handles (document s)).

(** Every element that carries the button's id was made by
    [createInstallButton]: it is not the body, and it has the one click
    listener of line 50. *)
Definition genuine_button (d : node) : Prop :=
  el_id (root d) <> installBtnId /\
  forall el, In el (elements d) -> el_id el = installBtnId ->
             onclick el = [InstallClick (handle el)].

(** What every state the script can reach satisfies, on a page that has
    no element with the button's id of its own: identities are unique and
    below the allocation mark, at most one element has the button's id,
    and it is the script's.  Only the document and the mark matter. *)
Definition inv (d : node) (n : nat) : Prop :=
  NoDup (handles d) /\
  Forall (fun h => h < n) (handles d) /\
  count_id installBtnId d <= 1 /\
  genuine_button d.

Definition invariant (s : state) : Prop :=
  inv (document s) (fresh s).

(** The event object [e] is new to the script: its [userChoice] has not
    resolved and no handler waits for it. *)
Definition new_event (e : nat) (s : state) : Prop :=
  lookup e (settled s) = None /\ forall x, ~ In (e, x) (awaiting s).

(** The condition of lines 173 and 181 under which the start-up code sets
    the creation timer. *)
Definition proactive (v : env) : bool :=
  negb (Startup.isStandalone v) && (Startup.isIos v || Startup.isMac v).

(** ** Sample inputs *)

(** A page with the container the script looks for. *)
Definition sample_page : node :=
  Node (blank 0 "body")
    [ Node (Element 1 "div" "taskbarContainer" "" "" "" [] [])
        [ leaf 2 "span" "taskbar-item" "HOME" ];
      leaf 3 "footer" "" "" ].

(** Chrome on Linux: fires [beforeinstallprompt], is no Apple platform. *)
Definition chrome_linux : env :=
  Env "Mozilla/5.0 (X11; Linux x86_64) AppleWebKit/537.36 Chrome/120.0 Safari/537.36"
      "Linux x86_64" 0 None false.

(** Safari on an iPhone, in the browser. *)
Definition safari_iphone : env :=
  Env "Mozilla/5.0 (iPhone; CPU iPhone OS 17_0 like Mac OS X) AppleWebKit/605.1.15 Version/17.0 Mobile/15E148 Safari/604.1"
      "iPhone" 5 (Some false) false.

(** Safari on an iPad that asks for the desktop site. *)
Definition safari_ipad : env :=
  Env "Mozilla/5.0 (Macintosh; Intel Mac OS X 10_15_7) AppleWebKit/605.1.15 Version/17.0 Safari/605.1.15"
      "MacIntel" 5 (Some false) false.

(** Chrome on a Mac, in the browser: fires [beforeinstallprompt] and is
    an Apple platform to the start-up check. *)
Definition chrome_mac : env :=
  Env "Mozilla/5.0 (Macintosh; Intel Mac OS X 10_15_7) AppleWebKit/537.36 Chrome/120.0 Safari/537.36"
      "MacIntel" 0 None false.

(** A Mac browser window in standalone display mode, where
    [navigator.standalone] does not exist. *)
Definition mac_standalone_window : env :=
  Env "Mozilla/5.0 (Macintosh; Intel Mac OS X 10_15_7) AppleWebKit/537.36 Chrome/120.0 Safari/537.36"
      "MacIntel" 0 None true.

(** ** The worker registration (section 1 of the script)

    Lines 6-17 touch nothing of the state above: they call
    [navigator.serviceWorker.register] once the page has loaded and log
    how the returned promise settles.  They are a machine of their own. *)

Module Worker.

Inductive effect : Type :=
| Register (path : string)        (* navigator.serviceWorker.register(path) *)
| Log (args : list string).       (* console.log(...args) *)

(** What the host does: the load event, and the settling of the promise
    of the registration call numbered [r]. *)
Inductive event : Type :=
| Load
| Resolved (r : nat) (scope : string)
| Rejected (r : nat) (error : string).

Record state : Type := State {
  pending : list nat;       (* registration promises not settled yet *)
  calls : nat;              (* how many calls to register so far *)
  output : list effect      (* oldest first *)
}.

Definition init : state := State [] 0 [].

(** The load listener of line 8. *)
Definition on_load (s : state) : state :=
  State (pending s ++ [calls s]) (S (calls s)) (output s ++ [Register "./sw.js"]).

(** A promise settles once; the callbacks of lines 10 and 13 run on the
    promise they were chained to. *)
Definition settle (r : nat) (line : list string) (s : state) : state :=
  if existsb (Nat.eqb r) (pending s)
  then State (filter (fun q => negb (q =? r)) (pending s)) (calls s)
             (output s ++ [Log line])
  else s.

(** [supported] is ['serviceWorker' in navigator]: without it the load
    listener is never installed (line 7). *)
Definition step (supported : bool) (s : state) (ev : event) : state :=
  match ev with
  | Load => if supported then on_load s else s
  | Resolved r scope => settle r ["Service Worker registered with scope:"; scope] s
  | Rejected r error => settle r ["Service Worker registration failed:"; error] s
  end.

Definition run (supported : bool) (s : state) (evs : list event) : state :=
  fold_left (step supported) evs s.

Definition is_register (x : effect) : bool :=
  match x with Register _ => true | Log _ => false end.

Definition is_load (ev : event) : bool :=
  match ev with Load => true | _ => false end.

(** What lines 8-14 write in answer to one event of the host. *)
Definition render (ev : event) : effect :=
  match ev with
  | Load => Register "./sw.js"
  | Resolved _ scope => Log ["Service Worker registered with scope:"; scope]
  | Rejected _ error => Log ["Service Worker registration failed:"; error]
  end.

(** A trace as a host delivers it: the promise of call [r] (calls are
    numbered from 0) settles after the call was made, and once.  [calls]
    counts the load events so far, [done] lists the promises settled. *)
Fixpoint orderly (calls : nat) (done : list nat) (evs : list event) : bool :=
  match evs with
  | [] => true
  | Load :: t => orderly (S calls) done t
  | Resolved r _ :: t | Rejected r _ :: t =>
      (r <? calls) && negb (existsb (Nat.eqb r) done) && orderly calls (r :: done) t
  end.

End Worker.

(** What the registration keeps: the pending promises are distinct calls
    made so far, every call either is pending or has logged once, and the
    output holds nothing but calls for "./sw.js" and the two log lines. *)
Definition worker_invariant (s : Worker.state) : Prop :=
  NoDup (Worker.pending s) /\
  Forall (fun r => r < Worker.calls s) (Worker.pending s) /\
  List.length (filter Worker.is_register (Worker.output s)) = Worker.calls s /\
  List.length (filter (fun x => negb (Worker.is_register x)) (Worker.output s))
  + List.length (Worker.pending s) = Worker.calls s /\
  Forall (fun x => match x with
                   | Worker.Register path => path = "./sw.js"
                   | Worker.Log [heading; _] =>
                       heading = "Service Worker registered with scope:" \/
                       heading = "Service Worker registration failed:"
                   | Worker.Log _ => False
                   end) (Worker.output s).

(** ** Further notions and inputs *)

(** The events whose [prompt] method the script has called, in order. *)
Fixpoint prompts (l : list effect) : list nat :=
  match l with
  | [] => []
  | Prompt e :: r => e :: prompts r
  | _ :: r => prompts r
  end.

(** No pending timer removes anything: only the two callbacks of
    [createInstallButton] and of the start-up code are scheduled. *)
Definition calm (t : list (nat * task)) : Prop :=
  Forall (fun p => match snd p with RemoveModal _ => False | _ => True end) t.

(** The heading of a dialog and the texts it sets in bold. *)
Definition dialog_heading (n : node) : string :=
  match n with
  | Node _ (Node heading _ :: _) => text heading
  | _ => ""
  end.

Definition bold_texts (n : node) : list string :=
  map text (filter (fun el => String.eqb (tagName el) "b") (elements n)).

(** The inline style of the element [x], property [k]. *)
Definition style_of (x : nat) (k : string) (doc : node) : option string :=
  match deref x doc with
  | Some el => get_style k el
  | None => None
  end.

(** How one listener, and so one click, can move the variable and the
    list of prompts: the variable stays or becomes [null]; a prompt that
    is new was called on the event the variable held. *)
Definition moved (s s' : state) : Prop :=
  (deferredPrompt s' = deferredPrompt s \/ deferredPrompt s' = Null) /\
  (forall e, In e (prompts (output s')) ->
             In e (prompts (output s)) \/ deferredPrompt s = Stashed e).

(** The button once its entry animation has run (lines 70-71). *)
Definition shown_button (b : nat) : node :=
  Node (Element b "button" installBtnId "taskbar-item" "Install App" ""
          [ ("opacity", "1"); ("transform", "translateY(0)");
            ("transition", "all 0.5s ease") ]
          [InstallClick b])
       (button_markup b).

(** An iPad that reports itself as one (before iPadOS 13). *)
Definition old_ipad : env :=
  Env "Mozilla/5.0 (iPad; CPU OS 12_4 like Mac OS X) AppleWebKit/605.1.15 Version/12.1 Mobile/15E148 Safari/604.1"
      "iPad" 5 (Some false) false.

(** An iPhone whose user agent arrives in capitals. *)
Definition shouting_iphone : env :=
  Env "MOZILLA/5.0 (IPHONE; CPU IPHONE OS 17_0 LIKE MAC OS X)"
      "iPhone" 5 (Some false) false.

(** Safari on a Mac, in the browser. *)
Definition safari_mac : env :=
  Env "Mozilla/5.0 (Macintosh; Intel Mac OS X 10_15_7) AppleWebKit/605.1.15 Version/17.0 Safari/605.1.15"
      "MacIntel" 0 None false.

(** A page without the container. *)
Definition bare_page : node :=
  Node (blank 0 "body") [ leaf 1 "main" "" "" ].

(** ** Trees: an induction principle and the algebra of the operations *)

Section NodeInd.
Variable P : node -> Prop.
Hypothesis step_node : forall el kids, Forall P kids -> P (Node el kids).

Fixpoint node_forall_ind (n : node) : P n :=
  match n with
  | Node el kids =>
      step_node el kids
        ((fix go (l : list node) : Forall P l :=
            match l with
            | [] => Forall_nil P
            | k :: r => Forall_cons k (node_forall_ind k) (go r)
            end) kids)
  end.
End NodeInd.

Lemma handles_node el kids :
  handles (Node el kids) = handle el :: flat_map handles kids.
Proof.
  unfold handles; simpl; f_equal.
  induction kids as [|k r IH]; simpl; [reflexivity|].
  now rewrite map_app, IH.
Qed.

Lemma in_handles_kid x k kids :
  In k kids -> In x (handles k) -> In x (flat_map handles kids).
Proof. intros Hk Hx; apply in_flat_map; now exists k. Qed.

Lemma map_fix_kids (g : node -> node) (kids : list node) :
  Forall (fun k => g k = k) kids -> map g kids = kids.
Proof.
  induction 1 as [|k r Hk _ IH]; simpl; [reflexivity|].
  now rewrite Hk, IH.
Qed.

Lemma kids_fresh x kids (Q : node -> Prop) :
  Forall (fun k => ~ In x (handles k) -> Q k) kids ->
  ~ In x (flat_map handles kids) ->
  Forall Q kids.
Proof.
  intros H Hx; apply Forall_forall; intros k Hk.
  apply (proj1 (Forall_forall _ _) H k Hk).
  intro Hin; apply Hx; eapply in_handles_kid; eauto.
Qed.

Lemma update_fresh x f d :
  ~ In x (handles d) -> update x f d = d.
Proof.
  induction d as [el kids IH] using node_forall_ind; intros Hx.
  rewrite handles_node in Hx; simpl.
  destruct (Nat.eqb_spec (handle el) x) as [E|E];
    [exfalso; apply Hx; now left|].
  f_equal; apply map_fix_kids; eapply kids_fresh; eauto.
  intro Hin; apply Hx; now right.
Qed.

Lemma appendChild_absent p c d :
  ~ In p (handles d) -> appendChild p c d = d.
Proof.
  induction d as [el kids IH] using node_forall_ind; intros Hp.
  rewrite handles_node in Hp; simpl.
  destruct (Nat.eqb_spec (handle el) p) as [E|E];
    [exfalso; apply Hp; now left|].
  f_equal; apply map_fix_kids; eapply kids_fresh; eauto.
  intro Hin; apply Hp; now right.
Qed.

Lemma root_remove x d : root (remove x d) = root d.
Proof. now destruct d. Qed.

Lemma root_update_handle x f d :
  (forall el, handle (f el) = handle el) ->
  handle (root (update x f d)) = handle (root d).
Proof.
  intros Hf; destruct d as [el kids]; simpl.
  destruct (handle el =? x); [apply Hf | reflexivity].
Qed.

Lemma root_appendChild p c d : root (appendChild p c d) = root d.
Proof. destruct d as [el kids]; simpl; now destruct (handle el =? p). Qed.

Lemma root_in_elements d : In (root d) (elements d).
Proof. destruct d; now left. Qed.

Lemma root_handle_in d : In (handle (root d)) (handles d).
Proof. destruct d as [el kids]; rewrite handles_node; now left. Qed.

Lemma filter_keep_all {A : Type} (q : A -> bool) (l : list A) :
  Forall (fun a => q a = true) l -> filter q l = l.
Proof.
  induction 1 as [|a r Ha _ IH]; simpl; [reflexivity|].
  now rewrite Ha, IH.
Qed.

Lemma roots_fresh x kids :
  ~ In x (flat_map handles kids) ->
  Forall (fun k => negb (handle (root k) =? x) = true) kids.
Proof.
  intros Hx; apply Forall_forall; intros [el ks] Hk; simpl.
  destruct (Nat.eqb_spec (handle el) x) as [E|E]; [|reflexivity].
  exfalso; apply Hx; eapply in_handles_kid; eauto.
  rewrite handles_node; now left.
Qed.

Lemma remove_fresh x d :
  ~ In x (handles d) -> remove x d = d.
Proof.
  induction d as [el kids IH] using node_forall_ind; intros Hx.
  rewrite handles_node in Hx; simpl.
  assert (Hk : ~ In x (flat_map handles kids)) by (intro; apply Hx; now right).
  rewrite (map_fix_kids (remove x) kids (kids_fresh x kids _ IH Hk)).
  now rewrite (filter_keep_all _ _ (roots_fresh x kids Hk)).
Qed.

Lemma update_appendChild x f p c d :
  ~ In x (handles d) ->
  update x f (appendChild p c d) = appendChild p (update x f c) d.
Proof.
  induction d as [el kids IH] using node_forall_ind; intros Hx.
  rewrite handles_node in Hx; simpl.
  assert (Hk : ~ In x (flat_map handles kids)) by (intro; apply Hx; now right).
  destruct (Nat.eqb_spec (handle el) x) as [E|E];
    [exfalso; apply Hx; now left|].
  destruct (handle el =? p) eqn:Ep; simpl.
  - apply Nat.eqb_neq in E; rewrite E.
    rewrite map_app; simpl; f_equal; f_equal.
    apply map_fix_kids, Forall_forall; intros k Hin.
    apply update_fresh; intro Hc; apply Hk; eapply in_handles_kid; eauto.
  - apply Nat.eqb_neq in E; rewrite E; f_equal.
    rewrite !map_map; apply map_ext_in; intros k Hin.
    apply (proj1 (Forall_forall _ _) IH k Hin).
    intro Hc; apply Hk; eapply in_handles_kid; eauto.
Qed.

Lemma remove_appendChild x p c d :
  ~ In x (handles d) -> handle (root c) = x ->
  remove x (appendChild p c d) = d.
Proof.
  induction d as [el kids IH] using node_forall_ind; intros Hx Hc.
  rewrite handles_node in Hx; simpl.
  assert (Hk : ~ In x (flat_map handles kids)) by (intro; apply Hx; now right).
  destruct (handle el =? p) eqn:Ep; simpl; f_equal.
  - rewrite map_app, filter_app; simpl.
    rewrite root_remove, Hc, Nat.eqb_refl; simpl; rewrite app_nil_r.
    rewrite (map_fix_kids (remove x)).
    + apply filter_keep_all, roots_fresh, Hk.
    + apply Forall_forall; intros k Hin; apply remove_fresh.
      intro Hh; apply Hk; eapply in_handles_kid; eauto.
  - rewrite map_map.
    rewrite (map_fix_kids (fun k => remove x (appendChild p c k))).
    + apply filter_keep_all, roots_fresh, Hk.
    + apply Forall_forall; intros k Hin.
      apply (proj1 (Forall_forall _ _) IH k Hin); [|assumption].
      intro Hh; apply Hk; eapply in_handles_kid; eauto.
Qed.

Lemma elements_node el kids :
  elements (Node el kids) = el :: flat_map elements kids.
Proof. reflexivity. Qed.

Lemma elements_update x f d :
  elements (update x f d) =
  map (fun el => if handle el =? x then f el else el) (elements d).
Proof.
  induction d as [el kids IH] using node_forall_ind; simpl; f_equal.
  induction IH as [|k r Hk _ IHr]; simpl; [reflexivity|].
  now rewrite map_app, Hk, IHr.
Qed.

Lemma flat_map_fix_kids (g : node -> node) (kids : list node) :
  Forall (fun k => g k = k) kids ->
  flat_map elements (map g kids) = flat_map elements kids.
Proof. intros H; now rewrite (map_fix_kids g kids H). Qed.

(** Appending under [p] inserts the elements of the child, once, at the
    end of the subtree of [p]. *)
Lemma elements_appendChild p c d :
  In p (handles d) -> NoDup (handles d) ->
  exists l1 l2,
    elements d = l1 ++ l2 /\
    elements (appendChild p c d) = l1 ++ elements c ++ l2.
Proof.
  induction d as [el kids IH] using node_forall_ind; intros Hp Hnd.
  rewrite handles_node in Hp, Hnd; simpl.
  destruct (Nat.eqb_spec (handle el) p) as [E|E].
  - exists (el :: flat_map elements kids), []; split.
    + now rewrite app_nil_r.
    + simpl; rewrite flat_map_app; simpl; now rewrite !app_nil_r.
  - destruct Hp as [Hp|Hp]; [contradiction|].
    apply NoDup_cons_iff in Hnd; destruct Hnd as [_ Hnd].
    assert (Hgoal : exists l1 l2,
               flat_map elements kids = l1 ++ l2 /\
               flat_map elements (map (appendChild p c) kids)
               = l1 ++ elements c ++ l2).
    { clear E el.
      induction IH as [|k r Hk _ IHr]; simpl in *; [contradiction|].
      apply in_app_or in Hp.
      pose proof (NoDup_app_remove_l _ _ Hnd) as Hr.
      pose proof (NoDup_app_remove_r _ _ Hnd) as Hkd.
      destruct (in_dec Nat.eq_dec p (handles k)) as [Hin|Hout].
      - destruct (Hk Hin Hkd) as (l1 & l2 & E1 & E2).
        exists l1, (l2 ++ flat_map elements r); split.
        + now rewrite E1, app_assoc.
        + rewrite E2, flat_map_fix_kids; [now rewrite <- !app_assoc|].
          apply Forall_forall; intros k' Hk'; apply appendChild_absent.
          intro Hc.
          assert (Hdis : In p (flat_map handles r))
            by (eapply in_handles_kid; eauto).
          clear - Hnd Hin Hdis.
          induction (handles k) as [|a l IHl]; simpl in *; [contradiction|].
          apply NoDup_cons_iff in Hnd; destruct Hnd as [Ha Hnd].
          destruct Hin as [->|Hin]; [|now apply IHl].
          apply Ha, in_or_app; now right.
      - destruct Hp as [Hp|Hp]; [contradiction|].
        destruct (IHr Hp Hr) as (l1 & l2 & E1 & E2).
        exists (elements k ++ l1), l2; split.
        + now rewrite E1, app_assoc.
        + rewrite (appendChild_absent p c k Hout), E2.
          now rewrite <- app_assoc. }
    destruct Hgoal as (l1 & l2 & E1 & E2).
    exists (el :: l1), l2; split; simpl; now f_equal.
Qed.

(** Without any assumption on identities the child is at least there. *)
Lemma elements_appendChild_incl p c d :
  In p (handles d) -> incl (elements c) (elements (appendChild p c d)).
Proof.
  induction d as [el kids IH] using node_forall_ind; intros Hp e He.
  rewrite handles_node in Hp; simpl.
  destruct (Nat.eqb_spec (handle el) p) as [E|E]; simpl; right.
  - rewrite flat_map_app; apply in_or_app; right; simpl.
    now rewrite app_nil_r.
  - destruct Hp as [Hp|Hp]; [contradiction|].
    apply in_flat_map in Hp; destruct Hp as (k & Hk & Hpk).
    apply in_flat_map; exists (appendChild p c k); split.
    + now apply in_map.
    + now apply (proj1 (Forall_forall _ _) IH k Hk Hpk).
Qed.

Lemma elements_appendChild_cases p c d el :
  In el (elements (appendChild p c d)) ->
  In el (elements d) \/ In el (elements c).
Proof.
  revert el; induction d as [e kids IH] using node_forall_ind; intros el; simpl.
  destruct (handle e =? p); simpl.
  - intros [->|Hin]; [left; now left|].
    rewrite flat_map_app in Hin; apply in_app_or in Hin.
    destruct Hin as [Hin|Hin]; [left; now right|].
    simpl in Hin; rewrite app_nil_r in Hin; now right.
  - intros [->|Hin]; [left; now left|].
    apply in_flat_map in Hin; destruct Hin as (k' & Hk' & Hin).
    apply in_map_iff in Hk'; destruct Hk' as (k & <- & Hk).
    destruct (proj1 (Forall_forall _ _) IH k Hk el Hin) as [H|H];
      [left; right; apply in_flat_map; now exists k | now right].
Qed.

(** What is left after a removal was there before, and is not the removed
    element unless that is the body itself. *)
Lemma elements_remove x d e :
  In e (elements (remove x d)) ->
  In e (elements d) /\ (handle e <> x \/ e = root d).
Proof.
  revert e; induction d as [el kids IH] using node_forall_ind; intros e He.
  simpl in He; destruct He as [<-|He]; [split; [now left | now right]|].
  apply in_flat_map in He; destruct He as (k' & Hk' & He).
  apply filter_In in Hk'; destruct Hk' as [Hk' Hroot].
  apply in_map_iff in Hk'; destruct Hk' as (k & <- & Hk).
  destruct (proj1 (Forall_forall _ _) IH k Hk e He) as [Hin Hne].
  split.
  - simpl; right; apply in_flat_map; now exists k.
  - left; destruct Hne as [Hne | ->]; [assumption|].
    rewrite root_remove in Hroot.
    now apply Nat.eqb_neq, negb_true_iff.
Qed.

Lemma children_of_appendChild p c d :
  In p (handles d) ->
  In (handle (root c)) (children_of p (appendChild p c d)).
Proof.
  induction d as [el kids IH] using node_forall_ind; intros Hp.
  rewrite handles_node in Hp; simpl.
  destruct (Nat.eqb_spec (handle el) p) as [E|E]; simpl.
  - apply Nat.eqb_eq in E; rewrite E, map_app; apply in_or_app; right.
    now left.
  - apply Nat.eqb_neq in E; rewrite E.
    destruct Hp as [Hp|Hp]; [apply Nat.eqb_neq in E; contradiction|].
    apply in_flat_map in Hp; destruct Hp as (k & Hk & Hpk).
    apply in_flat_map; exists (appendChild p c k); split.
    + now apply in_map.
    + now apply (proj1 (Forall_forall _ _) IH k Hk Hpk).
Qed.

(** ** Lists: first match and number of matches *)

Lemma find_none_count {A : Type} (q : A -> bool) (l : list A) :
  find q l = None <-> List.length (filter q l) = 0.
Proof.
  induction l as [|a r IH]; simpl; [tauto|].
  destruct (q a); simpl; [split; discriminate | exact IH].
Qed.

Lemma find_app {A : Type} (q : A -> bool) (l1 l2 : list A) :
  find q (l1 ++ l2) =
  match find q l1 with Some a => Some a | None => find q l2 end.
Proof.
  induction l1 as [|a r IH]; simpl; [reflexivity|].
  now destruct (q a).
Qed.

Lemma find_app_none {A : Type} (q : A -> bool) (l1 l2 : list A) :
  find q (l1 ++ l2) = None -> find q l1 = None /\ find q l2 = None.
Proof.
  rewrite find_app; destruct (find q l1); [discriminate | now split].
Qed.

Lemma count_one_unique {A : Type} (q : A -> bool) (l : list A) (a : A) :
  List.length (filter q l) <= 1 -> find q l = Some a ->
  forall x, In x l -> q x = true -> x = a.
Proof.
  induction l as [|y r IH]; simpl; [discriminate|].
  destruct (q y) eqn:Ey; simpl; intros Hc Hf x [->|Hx] Hq.
  - congruence.
  - assert (Hz : List.length (filter q r) = 0) by lia.
    apply find_none_count in Hz.
    apply (find_none _ _ Hz) in Hx; congruence.
  - congruence.
  - now apply IH.
Qed.

Lemma find_unique_handle (l : list element) (el : element) :
  NoDup (map handle l) -> In el l ->
  find (fun e => handle e =? handle el) l = Some el.
Proof.
  induction l as [|y r IH]; simpl; [contradiction|].
  intros Hnd [->|Hin]; [now rewrite Nat.eqb_refl|].
  apply NoDup_cons_iff in Hnd; destruct Hnd as [Hy Hnd].
  destruct (Nat.eqb_spec (handle y) (handle el)) as [E|E].
  - exfalso; apply Hy; rewrite E; now apply in_map.
  - now apply IH.
Qed.

Lemma find_map_preserved (q : element -> bool) (g : element -> element) l :
  (forall el, q (g el) = q el) ->
  find q (map g l) = option_map g (find q l).
Proof.
  intros Hg; induction l as [|a r IH]; simpl; [reflexivity|].
  rewrite Hg; now destruct (q a).
Qed.

Lemma filter_handle_absent h (l : list element) :
  ~ In h (map handle l) -> filter (fun e => handle e =? h) l = [].
Proof.
  induction l as [|a r IH]; simpl; [reflexivity|]; intros Hn.
  destruct (Nat.eqb_spec (handle a) h) as [E|E]; [exfalso; apply Hn; now left|].
  apply IH; intro; apply Hn; now right.
Qed.

Lemma filter_nonempty {A : Type} (q : A -> bool) (l : list A) (a : A) :
  In a l -> q a = true -> 1 <= List.length (filter q l).
Proof.
  intros Hin Hq.
  assert (H : In a (filter q l)) by (apply filter_In; now split).
  destruct (filter q l); [contradiction | simpl; lia].
Qed.

(** Identities are unique exactly when every identity names at most one
    element. *)
Lemma nodup_handles_count (l : list element) :
  NoDup (map handle l) <->
  forall h, List.length (filter (fun e => handle e =? h) l) <= 1.
Proof.
  induction l as [|a r IH]; simpl.
  - split; [intros _ h; lia | constructor].
  - rewrite NoDup_cons_iff; split.
    + intros [Ha Hr] h.
      destruct (Nat.eqb_spec (handle a) h) as [E|E]; simpl.
      * subst h; rewrite (filter_handle_absent _ _ Ha); simpl; lia.
      * now apply IH.
    + intros H; split.
      * intros Hin; apply in_map_iff in Hin; destruct Hin as (e & He & Hin).
        specialize (H (handle a)); rewrite Nat.eqb_refl in H; simpl in H.
        assert (1 <= List.length (filter (fun e0 => handle e0 =? handle a) r))
          by (apply filter_nonempty with e; [assumption | now apply Nat.eqb_eq]).
        lia.
      * apply IH; intros h; specialize (H h).
        destruct (handle a =? h); simpl in H; lia.
Qed.

Lemma nodup_handle_inj (l : list element) (e1 e2 : element) :
  NoDup (map handle l) -> In e1 l -> In e2 l ->
  handle e1 = handle e2 -> e1 = e2.
Proof.
  intros Hnd H1 H2 E.
  pose proof (find_unique_handle l e1 Hnd H1) as F1.
  pose proof (find_unique_handle l e2 Hnd H2) as F2.
  rewrite E in F1; congruence.
Qed.

Lemma not_awaited e l :
  (forall x, ~ In (e, x) l) ->
  filter (fun p : nat * nat => fst p =? e) l = [] /\
  filter (fun p : nat * nat => negb (fst p =? e)) l = l.
Proof.
  induction l as [|[a x] r IH]; intros H; simpl; [now split|].
  destruct (Nat.eqb_spec a e) as [->|Ne]; simpl.
  - exfalso; apply (H x); now left.
  - destruct IH as [IH1 IH2]; [intros y Hy; apply (H y); now right|].
    now rewrite IH1, IH2.
Qed.

Lemma lookup_app_new {A : Type} (e : nat) (l : list (nat * A)) (a : A) :
  lookup e (l ++ [(e, a)]) =
  match lookup e l with Some x => Some x | None => Some a end.
Proof.
  unfold lookup; rewrite find_app; simpl; rewrite Nat.eqb_refl.
  now destruct (find _ l).
Qed.

(** ** Lookups and counts in the document *)

Lemma getElementById_in i d h :
  getElementById i d = Some h -> In h (handles d).
Proof.
  unfold getElementById, handles; intros H.
  destruct (find _ _) as [el|] eqn:E; [|discriminate].
  injection H as <-; apply in_map; eapply find_some; eauto.
Qed.

Lemma getElementById_none_count i d :
  getElementById i d = None <-> count_id i d = 0.
Proof.
  unfold getElementById, count_id; rewrite <- find_none_count.
  destruct (find _ _); simpl; split; congruence.
Qed.

Lemma getElementById_some_of_in i d el :
  In el (elements d) -> el_id el = i ->
  exists h, getElementById i d = Some h.
Proof.
  intros Hin Hid; unfold getElementById.
  destruct (find _ _) as [e|] eqn:E; [now exists (handle e)|].
  apply (find_none _ _ E) in Hin; rewrite Hid, String.eqb_refl in Hin.
  discriminate.
Qed.

Lemma count_zero_no_id i c el :
  count_id i c = 0 -> In el (elements c) -> el_id el <> i.
Proof.
  intros Hz Hin Hid; unfold count_id in Hz.
  assert (1 <= List.length (filter (fun e => String.eqb (el_id e) i) (elements c)))
    by (apply filter_nonempty with el; [assumption | now apply String.eqb_eq]).
  lia.
Qed.

Lemma count_id_appendChild i p c d :
  In p (handles d) -> NoDup (handles d) ->
  count_id i (appendChild p c d) = count_id i d + count_id i c.
Proof.
  intros Hp Hnd; destruct (elements_appendChild p c d Hp Hnd) as (l1 & l2 & E1 & E2).
  unfold count_id; rewrite E1, E2, !filter_app, !length_app; lia.
Qed.

Lemma filter_count_appendChild (q : element -> bool) p c d :
  In p (handles d) -> NoDup (handles d) ->
  List.length (filter q (elements (appendChild p c d)))
  = List.length (filter q (elements d)) + List.length (filter q (elements c)).
Proof.
  intros Hp Hnd; destruct (elements_appendChild p c d Hp Hnd) as (l1 & l2 & E1 & E2).
  rewrite E1, E2, !filter_app, !length_app; lia.
Qed.

Lemma filter_count_remove (q : element -> bool) x d :
  List.length (filter q (elements (remove x d)))
  <= List.length (filter q (elements d)).
Proof.
  induction d as [el kids IH] using node_forall_ind; simpl.
  assert (Hk : List.length
                 (filter q (flat_map elements
                    (filter (fun k => negb (handle (root k) =? x))
                            (map (remove x) kids))))
               <= List.length (filter q (flat_map elements kids))).
  { induction IH as [|k r Hk _ IHr]; simpl; [constructor|].
    destruct (negb (handle (root (remove x k)) =? x)); simpl;
      rewrite ?filter_app, ?length_app; lia. }
  destruct (q el); simpl; lia.
Qed.

Lemma getElementById_appendChild_fresh i p c d :
  In p (handles d) -> NoDup (handles d) ->
  getElementById i d = None ->
  getElementById i (appendChild p c d) = getElementById i c.
Proof.
  intros Hp Hnd Hnone.
  destruct (elements_appendChild p c d Hp Hnd) as (l1 & l2 & E1 & E2).
  unfold getElementById in *; rewrite E1 in Hnone; rewrite E2.
  destruct (find _ (l1 ++ l2)) eqn:Ef; [discriminate|].
  apply find_app_none in Ef; destruct Ef as [Ef1 Ef2].
  rewrite !find_app, Ef1, Ef2; now destruct (find _ (elements c)).
Qed.

Lemma getElementById_appendChild_new i p c d :
  In p (handles d) -> NoDup (handles d) ->
  getElementById i d = None ->
  String.eqb (el_id (root c)) i = true ->
  getElementById i (appendChild p c d) = Some (handle (root c)).
Proof.
  intros Hp Hnd Hnone Hc.
  destruct (elements_appendChild p c d Hp Hnd) as (l1 & l2 & E1 & E2).
  unfold getElementById in *; rewrite E1 in Hnone; rewrite E2.
  destruct (find _ (l1 ++ l2)) eqn:Ef; [discriminate|].
  apply find_app_none in Ef; destruct Ef as [Ef1 _].
  rewrite find_app, Ef1; destruct c as [el ks]; simpl in *.
  now rewrite Hc.
Qed.

Lemma deref_appendChild_fresh h p c d :
  In p (handles d) -> NoDup (handles d) ->
  ~ In h (handles d) ->
  deref h (appendChild p c d) = deref h c.
Proof.
  intros Hp Hnd Hfresh.
  destruct (elements_appendChild p c d Hp Hnd) as (l1 & l2 & E1 & E2).
  assert (Hno : find (fun el => handle el =? h) (l1 ++ l2) = None).
  { destruct (find _ (l1 ++ l2)) as [el|] eqn:Ef; [|reflexivity].
    exfalso; apply Hfresh; apply find_some in Ef; destruct Ef as [Hin He].
    apply Nat.eqb_eq in He; rewrite <- He.
    unfold handles; rewrite E1; now apply in_map. }
  apply find_app_none in Hno; destruct Hno as [F1 F2].
  unfold deref; rewrite E2, !find_app, F1, F2.
  now destruct (find _ (elements c)).
Qed.

Lemma deref_appendChild_new p c d :
  In p (handles d) -> NoDup (handles d) ->
  ~ In (handle (root c)) (handles d) ->
  deref (handle (root c)) (appendChild p c d) = Some (root c).
Proof.
  intros Hp Hnd Hfresh.
  destruct (elements_appendChild p c d Hp Hnd) as (l1 & l2 & E1 & E2).
  unfold deref; rewrite E2, find_app.
  destruct (find _ l1) as [el|] eqn:Ef.
  - exfalso; apply Hfresh; apply find_some in Ef; destruct Ef as [Hin He].
    apply Nat.eqb_eq in He; rewrite <- He.
    unfold handles; rewrite E1; apply in_map, in_or_app; now left.
  - destruct c as [el ks]; simpl; now rewrite Nat.eqb_refl.
Qed.

Lemma deref_found i d h :
  NoDup (handles d) -> getElementById i d = Some h ->
  exists el, deref h d = Some el /\ In el (elements d) /\
             handle el = h /\ el_id el = i.
Proof.
  unfold getElementById, deref; intros Hnd H.
  destruct (find _ _) as [el|] eqn:E; [|discriminate].
  injection H as <-; apply find_some in E; destruct E as [Hin Hid].
  exists el; repeat split; try assumption.
  - now apply find_unique_handle.
  - now apply String.eqb_eq.
Qed.

Lemma getElementById_update i x f d :
  (forall el, el_id (f el) = el_id el) ->
  (forall el, handle (f el) = handle el) ->
  getElementById i (update x f d) = getElementById i d.
Proof.
  intros Hid Hh; unfold getElementById; rewrite elements_update.
  rewrite find_map_preserved.
  - destruct (find _ _) as [el|]; simpl; [|reflexivity].
    destruct (handle el =? x); now rewrite ?Hh.
  - intros el; destruct (handle el =? x); now rewrite ?Hid.
Qed.

Lemma handles_update x f d :
  (forall el, handle (f el) = handle el) ->
  handles (update x f d) = handles d.
Proof.
  intros Hh; unfold handles; rewrite elements_update, map_map.
  apply map_ext; intros el; destruct (handle el =? x); now rewrite ?Hh.
Qed.

Lemma count_id_update i x f d :
  (forall el, el_id (f el) = el_id el) ->
  count_id i (update x f d) = count_id i d.
Proof.
  intros Hid; unfold count_id; rewrite elements_update.
  induction (elements d) as [|a r IH]; simpl; [reflexivity|].
  replace (el_id (if handle a =? x then f a else a)) with (el_id a)
    by (destruct (handle a =? x); now rewrite ?Hid).
  destruct (String.eqb (el_id a) i); simpl; now rewrite IH.
Qed.

Lemma button_gone_after_remove (d : node) (b : nat) :
  count_id installBtnId d <= 1 ->
  el_id (root d) <> installBtnId ->
  getElementById installBtnId d = Some b ->
  getElementById installBtnId (remove b d) = None.
Proof.
  intros Hc Hr Hb; unfold getElementById in *.
  destruct (find _ (elements d)) as [el0|] eqn:E0; [|discriminate].
  injection Hb as <-.
  destruct (find _ (elements (remove _ d))) as [el|] eqn:E; [|reflexivity].
  exfalso; apply find_some in E; destruct E as [Hin Hid].
  apply elements_remove in Hin; destruct Hin as [Hin Hne].
  assert (el = el0) by (eapply count_one_unique; eauto); subst el.
  destruct Hne as [Hne|Hroot]; [now apply Hne|].
  apply Hr; rewrite <- Hroot; now apply String.eqb_eq.
Qed.

Lemma fresh_not_in (s : state) :
  Forall (fun h => h < fresh s) (handles (document s)) ->
  ~ In (fresh s) (handles (document s)).
Proof.
  intros H Hin; apply (proj1 (Forall_forall _ _) H) in Hin; lia.
Qed.

(** ** Strings *)

Lemma prefix_map_string f p : forall s,
  String.prefix p s = true ->
  String.prefix (Js.map_string f p) (Js.map_string f s) = true.
Proof.
  induction p as [|a p IH]; intros s H; [now destruct s|].
  destruct s as [|b s]; simpl in *; [discriminate|].
  destruct (ascii_dec a b) as [->|N]; [|discriminate].
  destruct (ascii_dec (f b) (f b)) as [_|N]; [now apply IH | now elim N].
Qed.

Lemma includes_map_string f p : forall s,
  Js.includes p s = true ->
  Js.includes (Js.map_string f p) (Js.map_string f s) = true.
Proof.
  induction s as [|c s IH]; simpl; intros H.
  - apply orb_true_iff in H; destruct H as [H|H]; [|discriminate].
    apply orb_true_iff; left; now apply (prefix_map_string f p EmptyString).
  - apply orb_true_iff in H; apply orb_true_iff.
    destruct H as [H|H]; [left | right; now apply IH].
    now apply (prefix_map_string f p (String c s)).
Qed.

(** A user agent that has the token as it is written has it letter case
    aside. *)
Lemma includes_has_token tok ua :
  Js.includes tok ua = true -> has_token tok ua = true.
Proof. apply includes_map_string. Qed.

(** The two substring tests of the script agree: [indexOf] finds a
    position exactly where [includes] says yes. *)
Lemma indexOf_includes pat s :
  (0 <=? Js.indexOf s pat)%Z = Js.includes pat s.
Proof.
  unfold Js.indexOf.
  assert (H : forall s, Js.includes pat s
                        = match String.index 0 pat s with Some _ => true | None => false end).
  { clear s; induction s as [|c s IH].
    - destruct pat; reflexivity.
    - change (Js.includes pat (String c s))
        with (String.prefix pat (String c s) || Js.includes pat s).
      change (String.index 0 pat (String c s))
        with (if String.prefix pat (String c s) then Some 0
              else match String.index 0 pat s with
                   | Some n => Some (S n)
                   | None => None
                   end).
      rewrite IH; destruct (String.prefix pat (String c s)); simpl; [reflexivity|].
      now destruct (String.index 0 pat s). }
  rewrite H; destruct (String.index 0 pat s) as [n|]; [|reflexivity].
  apply Z.leb_le, Nat2Z.is_nonneg.
Qed.

(** ** Identities at fixed offsets from the allocation mark

    The objects one call creates are numbered [n], [n+1], ... from the
    mark [n]; the tactics below settle the comparisons of such numbers. *)

Ltac eqb_lia :=
  repeat match goal with
         | |- context [Nat.eqb ?a ?b] => destruct (Nat.eqb_spec a b); try lia
         end.

Lemma eqb_offsets a j k : (a + j =? a + k) = (j =? k).
Proof.
  destruct (Nat.eqb_spec j k) as [->|N]; [apply Nat.eqb_refl|].
  apply Nat.eqb_neq; lia.
Qed.

Lemma eqb_offset_r a k : (a =? a + S k) = false.
Proof. apply Nat.eqb_neq; lia. Qed.

Lemma eqb_offset_l a k : (a + S k =? a) = false.
Proof. apply Nat.eqb_neq; lia. Qed.

Ltac offsets :=
  rewrite <- ?Nat.add_assoc;
  repeat (rewrite ?Nat.eqb_refl, ?eqb_offsets, ?eqb_offset_r, ?eqb_offset_l; simpl).

Ltac distinct_offsets :=
  repeat (constructor; [simpl; lia|]); constructor.

(** ** [createInstallButton] *)

Lemma update_button b f el :
  handle el = b ->
  update b f (Node el (button_markup b)) = Node (f el) (button_markup b).
Proof.
  intros <-; unfold button_markup, leaf, blank; simpl.
  now eqb_lia.
Qed.

(** When the container is there and no element carries the id yet, the
    call appends the finished button under the container and sets the
    entry-animation timer. *)
Lemma createInstallButton_creates s p :
  getElementById "taskbarContainer" (document s) = Some p ->
  getElementById installBtnId (document s) = None ->
  Forall (fun h => h < fresh s) (handles (document s)) ->
  createInstallButton s =
  State (deferredPrompt s)
        (appendChild p (install_button (fresh s)) (document s))
        (fresh s + 7)
        (timers s ++ [(100, Animate (fresh s))])
        (awaiting s) (settled s) (output s).
Proof.
  intros Hc Hb Hf; unfold createInstallButton; rewrite Hc, Hb.
  pose proof (fresh_not_in s Hf) as Hn.
  unfold setTimeout, on_document, set_timers, set_document, set_fresh; simpl.
  f_equal.
  rewrite !update_appendChild by assumption.
  now rewrite !update_button by reflexivity.
Qed.

Lemma createInstallButton_present s b :
  getElementById installBtnId (document s) = Some b ->
  createInstallButton s = s.
Proof.
  intros Hb; unfold createInstallButton; rewrite Hb.
  now destruct (getElementById "taskbarContainer" (document s)).
Qed.

Lemma createInstallButton_no_container s :
  getElementById "taskbarContainer" (document s) = None ->
  createInstallButton s = s.
Proof. intros Hc; unfold createInstallButton; now rewrite Hc. Qed.

Lemma createInstallButton_finds_button s :
  createInstallButton s = s \/
  exists b, getElementById installBtnId (document (createInstallButton s)) = Some b.
Proof.
  unfold createInstallButton.
  destruct (getElementById "taskbarContainer" (document s)) as [p|] eqn:Ec;
    [|now left].
  destruct (getElementById installBtnId (document s)) as [b|] eqn:Eb;
    [now left|right].
  unfold setTimeout, on_document, set_timers, set_document, set_fresh; simpl.
  rewrite !getElementById_update by reflexivity.
  eapply getElementById_some_of_in.
  - apply (elements_appendChild_incl p); [eapply getElementById_in; eauto|].
    simpl; left; reflexivity.
  - reflexivity.
Qed.

Lemma createInstallButton_keeps_handle s :
  deferredPrompt (createInstallButton s) = deferredPrompt s.
Proof.
  unfold createInstallButton.
  destruct (getElementById "taskbarContainer" (document s)); [|reflexivity].
  now destruct (getElementById installBtnId (document s)).
Qed.

Lemma install_button_handles b :
  handles (install_button b) = [b; b + 1; b + 2; b + 3; b + 4; b + 5; b + 6].
Proof. reflexivity. Qed.

(** ** The dialog path *)

Lemma detectAndShowInstructions_spec v s :
  detectAndShowInstructions v s =
  match instructions_for v with
  | Some deviceType => showInstallInstructions deviceType s
  | None => s
  end.
Proof.
  unfold detectAndShowInstructions, instructions_for.
  unfold Detect.isMac, Detect.isIos, Detect.isIpadOS, Detect.isInStandaloneMode.
  destruct (apple_mobile_re _), (String.eqb (platform v) "MacIntel" && _),
    (match standalone v with Some b => b | None => false end),
    (0 <=? _)%Z; reflexivity.
Qed.

(** With a truthy [navigator.standalone] the dialog path shows nothing,
    whatever the platform. *)
Lemma standalone_flag_blocks_dialog (v : env) (s : state) :
  standalone v = Some true -> detectAndShowInstructions v s = s.
Proof.
  intros H; rewrite detectAndShowInstructions_spec.
  unfold instructions_for, Detect.isInStandaloneMode; rewrite H; simpl.
  now rewrite !andb_false_r.
Qed.

(** The dialog path never reads the display-mode media query. *)
Lemma dialog_path_ignores_display_mode ua pf tp st b1 b2 s :
  detectAndShowInstructions (Env ua pf tp st b1) s =
  detectAndShowInstructions (Env ua pf tp st b2) s.
Proof. reflexivity. Qed.

Lemma dialog_close_button m deviceType :
  getElementById "closeIosMsg" (dialog m deviceType) = Some (m + 10).
Proof.
  unfold dialog, modal_markup, instructions_markup.
  destruct (String.eqb deviceType "Mac"); reflexivity.
Qed.

Lemma open_dialog_close_listener m deviceType :
  option_map onclick (deref (m + 10) (open_dialog m deviceType))
  = Some [CloseDialog m].
Proof.
  unfold open_dialog, dialog, modal_markup, instructions_markup, deref, leaf, blank.
  destruct (String.eqb deviceType "Mac"); simpl; offsets; reflexivity.
Qed.

Lemma open_dialog_root m deviceType : handle (root (open_dialog m deviceType)) = m.
Proof.
  unfold open_dialog, dialog; simpl; now offsets.
Qed.

Lemma dialog_handles m deviceType :
  handles (dialog m deviceType)
  = [m; m + 1; m + 2; m + 2 + 1; m + 2 + 2; m + 2 + 3; m + 2 + 4; m + 2 + 5;
     m + 2 + 6; m + 2 + 7; m + 10].
Proof.
  unfold dialog, modal_markup, instructions_markup.
  destruct (String.eqb deviceType "Mac"); reflexivity.
Qed.

Lemma dialog_no_button m deviceType :
  count_id installBtnId (dialog m deviceType) = 0.
Proof.
  unfold dialog, modal_markup, instructions_markup.
  destruct (String.eqb deviceType "Mac"); reflexivity.
Qed.

(** While no other element carries the id [closeIosMsg], the call appends
    one dialog, whose close button gets the listener. *)
Lemma showInstallInstructions_alone s deviceType :
  well_formed s ->
  getElementById "closeIosMsg" (document s) = None ->
  showInstallInstructions deviceType s =
  State (deferredPrompt s)
        (appendChild (handle (root (document s))) (open_dialog (fresh s) deviceType)
                     (document s))
        (fresh s + 11) (timers s) (awaiting s) (settled s) (output s).
Proof.
  intros [Hnd Hf] Hnone; unfold showInstallInstructions.
  unfold on_document, set_document, set_fresh; simpl.
  fold (dialog (fresh s) deviceType).
  rewrite getElementById_appendChild_fresh, dialog_close_button;
    [|apply root_handle_in | assumption | assumption].
  simpl; f_equal; unfold open_dialog; apply update_appendChild.
  intro Hin; apply (proj1 (Forall_forall _ _) Hf) in Hin; lia.
Qed.

(** ** Start-up and the passing of time *)

Lemma state_eta s :
  State (deferredPrompt s) (document s) (fresh s) (timers s) (awaiting s)
        (settled s) (output s) = s.
Proof. now destruct s. Qed.

Lemma boot_spec v page :
  boot v page =
  State Undefined page (S (list_max (handles page)))
        (if proactive v then [(1000, CreateInstallButton)] else []) [] [] [].
Proof.
  unfold boot, proactive, Startup.isStandalone, Startup.isIos, Startup.isMac,
    Startup.isIpadOS.
  destruct (negb _); [destruct (_ || _)|]; reflexivity.
Qed.

Lemma boot_document v page : document (boot v page) = page.
Proof.
  unfold boot; destruct (negb _); [destruct (_ || _)|]; reflexivity.
Qed.

Lemma page_handles_fresh page :
  Forall (fun h => h < S (list_max (handles page))) (handles page).
Proof.
  apply Forall_forall; intros h Hin.
  pose proof (proj1 (list_max_le (handles page) (list_max (handles page)))
                    (le_n _)) as Hle.
  apply (proj1 (Forall_forall _ _) Hle) in Hin; lia.
Qed.

Lemma boot_well_formed v page :
  NoDup (handles page) -> well_formed (boot v page).
Proof.
  intros Hnd.
  assert (H : forall t, well_formed
                          (State Undefined page (S (list_max (handles page))) t [] [] [])).
  { intros t; split; simpl; [assumption | apply page_handles_fresh]. }
  unfold boot, setTimeout, set_timers; simpl.
  destruct (negb _); [destruct (_ || _)|]; apply H.
Qed.

Lemma sample_page_nodup : NoDup (handles sample_page).
Proof. repeat constructor; simpl; lia. Qed.

(** The start-up test [isIos || isMac] holds exactly on the three Apple
    classes of the dialog path. *)
Lemma startup_test_classify v :
  Startup.isIos v || Startup.isMac v = true <-> classify v <> Other.
Proof.
  unfold classify, Startup.isIos, Startup.isMac, Startup.isIpadOS,
    Detect.isMac, Detect.isIos, Detect.isIpadOS.
  destruct (apple_mobile_re _), (String.eqb (platform v) "MacIntel" && _),
    (0 <=? _)%Z; simpl; split; intros H; try discriminate; try reflexivity;
    try (exfalso; now apply H).
Qed.

Lemma tick_idle s : timers s = [] -> on_tick s = s.
Proof.
  intros H; unfold on_tick; rewrite H; simpl.
  unfold set_timers; rewrite <- H; apply state_eta.
Qed.

Lemma ticks_idle v s n : timers s = [] -> run v s (repeat Tick n) = s.
Proof.
  intros H; induction n as [|n IH]; simpl; [reflexivity|].
  now rewrite (tick_idle s H).
Qed.

Lemma tick_waits s k t :
  timers s = [(S (S k), t)] -> on_tick s = set_timers [(S k, t)] s.
Proof. intros H; unfold on_tick; now rewrite H. Qed.

Lemma tick_fires s t :
  timers s = [(1, t)] -> on_tick s = run_task t (set_timers [] s).
Proof. intros H; unfold on_tick; now rewrite H. Qed.

Lemma ticks_wait v n : forall s k t,
  timers s = [(n + S k, t)] ->
  run v s (repeat Tick n) = set_timers [(S k, t)] s.
Proof.
  induction n as [|n IH]; intros s k t H; simpl in *.
  - unfold set_timers; rewrite <- H; symmetry; apply state_eta.
  - rewrite Nat.add_succ_r in H.
    rewrite (tick_waits s (n + k) t H).
    rewrite (IH _ k t); [reflexivity|].
    simpl; now rewrite Nat.add_succ_r.
Qed.

Lemma ticks_fire v s d t :
  timers s = [(S d, t)] ->
  run v s (repeat Tick (S d)) = run_task t (set_timers [] s).
Proof.
  intros H.
  replace (S d) with (d + 1) at 1 by lia.
  rewrite repeat_app; unfold run; rewrite fold_left_app; fold (run v s (repeat Tick d)).
  rewrite (ticks_wait v d s 0 t) by (now rewrite Nat.add_1_r).
  simpl; now rewrite (tick_fires _ t).
Qed.

Lemma run_task_keeps_handle t s :
  deferredPrompt (run_task t s) = deferredPrompt s.
Proof.
  destruct t; simpl; [reflexivity | reflexivity|].
  apply createInstallButton_keeps_handle.
Qed.

Lemma tick_keeps_handle s : deferredPrompt (on_tick s) = deferredPrompt s.
Proof.
  unfold on_tick.
  set (due := filter _ _); set (s0 := set_timers _ s).
  change (deferredPrompt s) with (deferredPrompt s0).
  generalize s0; clear s0; induction due as [|p r IH]; intros s0; simpl;
    [reflexivity|].
  now rewrite IH, run_task_keeps_handle.
Qed.

Lemma resumed_handle_null o (l : list (nat * nat)) : forall s,
  l <> [] ->
  deferredPrompt (fold_left (fun s p => install_click_resume (snd p) o s) l s) = Null.
Proof.
  induction l as [|p r IH]; intros s Hl; [contradiction|]; simpl.
  destruct r as [|q r']; [reflexivity|].
  apply IH; discriminate.
Qed.

(** ** What every reachable state satisfies *)

Lemma invariant_inv s : invariant s <-> inv (document s) (fresh s).
Proof. unfold invariant; tauto. Qed.

Lemma inv_remove x d n : inv d n -> inv (remove x d) n.
Proof.
  intros (Hnd & Hf & Hc & Hr & Hg); repeat split.
  - unfold handles in *; apply nodup_handles_count; intros h.
    etransitivity; [apply filter_count_remove|].
    now apply nodup_handles_count.
  - apply Forall_forall; intros h Hin; unfold handles in Hin.
    apply in_map_iff in Hin; destruct Hin as (el & <- & Hin).
    apply elements_remove in Hin; destruct Hin as [Hin _].
    apply (proj1 (Forall_forall _ _) Hf); unfold handles; now apply in_map.
  - unfold count_id in *; etransitivity; [apply filter_count_remove | exact Hc].
  - now rewrite root_remove.
  - intros el Hin Hid; apply elements_remove in Hin; now apply Hg.
Qed.

Lemma inv_update x f d n :
  (forall el, handle (f el) = handle el) ->
  (forall el, el_id (f el) = el_id el) ->
  (forall el, In el (elements d) -> el_id el = installBtnId -> handle el = x ->
              onclick (f el) = onclick el) ->
  inv d n -> inv (update x f d) n.
Proof.
  intros Hh Hid Hon (Hnd & Hf & Hc & Hr & Hg); repeat split.
  - now rewrite handles_update.
  - now rewrite handles_update.
  - now rewrite count_id_update.
  - destruct d as [el kids]; simpl in *.
    destruct (handle el =? x); now rewrite ?Hid.
  - intros el' Hin Hid'; rewrite elements_update in Hin.
    apply in_map_iff in Hin; destruct Hin as (el & <- & Hin).
    destruct (Nat.eqb_spec (handle el) x) as [E|E].
    + rewrite Hid in Hid'; rewrite Hh, (Hon el Hin Hid' E); now apply Hg.
    + now apply Hg.
Qed.

Lemma inv_set_style x k w d n :
  inv d n -> inv (update x (set_style k w) d) n.
Proof. apply inv_update; reflexivity. Qed.

Lemma inv_mark d n n' : inv d n -> n <= n' -> inv d n'.
Proof.
  intros (Hnd & Hf & Hc & Hg) Hle; repeat split; try assumption; try apply Hg.
  eapply Forall_impl; [|exact Hf]; simpl; intros; lia.
Qed.

Lemma inv_appendChild p c d n n' :
  inv d n -> n <= n' ->
  NoDup (handles c) ->
  Forall (fun h => n <= h < n') (handles c) ->
  count_id installBtnId d + count_id installBtnId c <= 1 ->
  (forall el, In el (elements c) -> el_id el = installBtnId ->
              onclick el = [InstallClick (handle el)]) ->
  inv (appendChild p c d) n'.
Proof.
  intros Hinv Hle Hndc Hfc Hcount Hgc.
  destruct (in_dec Nat.eq_dec p (handles d)) as [Hp|Hp];
    [|rewrite appendChild_absent by assumption; now apply inv_mark with n].
  destruct Hinv as (Hnd & Hf & Hc & Hr & Hg); repeat split.
  - unfold handles in *; apply nodup_handles_count; intros h.
    rewrite filter_count_appendChild by assumption.
    pose proof (proj1 (nodup_handles_count _) Hnd h) as H1.
    pose proof (proj1 (nodup_handles_count _) Hndc h) as H2.
    destruct (in_dec Nat.eq_dec h (map handle (elements c))) as [Hin|Hout].
    + rewrite (filter_handle_absent h (elements d)); [simpl; lia|].
      intro Hd; apply (proj1 (Forall_forall _ _) Hf) in Hd.
      apply (proj1 (Forall_forall _ _) Hfc) in Hin; lia.
    + rewrite (filter_handle_absent h (elements c) Hout); simpl; lia.
  - apply Forall_forall; intros h Hin; unfold handles in Hin.
    apply in_map_iff in Hin; destruct Hin as (el & <- & Hin).
    apply elements_appendChild_cases in Hin; destruct Hin as [Hin|Hin].
    + assert (handle el < n); [|lia].
      apply (proj1 (Forall_forall _ _) Hf); unfold handles; now apply in_map.
    + assert (n <= handle el < n'); [|lia].
      apply (proj1 (Forall_forall _ _) Hfc); unfold handles; now apply in_map.
  - unfold count_id in *; rewrite filter_count_appendChild by assumption; lia.
  - now rewrite root_appendChild.
  - intros el Hin Hid; apply elements_appendChild_cases in Hin.
    destruct Hin as [Hin|Hin]; [now apply Hg | now apply Hgc].
Qed.

Lemma invariant_createInstallButton s :
  invariant s -> invariant (createInstallButton s).
Proof.
  intros Hi.
  destruct (getElementById "taskbarContainer" (document s)) as [p|] eqn:Ec;
    [|now rewrite createInstallButton_no_container].
  destruct (getElementById installBtnId (document s)) as [b|] eqn:Eb;
    [now rewrite (createInstallButton_present s b)|].
  pose proof Hi as (_ & Hf & _).
  rewrite (createInstallButton_creates s p Ec Eb Hf).
  apply invariant_inv; simpl; apply invariant_inv in Hi.
  apply inv_appendChild with (n := fresh s); try assumption; try lia.
  - rewrite install_button_handles; distinct_offsets.
  - rewrite install_button_handles.
    repeat (constructor; [lia|]); constructor.
  - apply getElementById_none_count in Eb; rewrite Eb; reflexivity.
  - intros el Hin Hid; simpl in Hin.
    destruct Hin as [<-|Hin]; [reflexivity|].
    repeat (destruct Hin as [<-|Hin]; [discriminate Hid|]); contradiction.
Qed.

Lemma invariant_showInstallInstructions deviceType s :
  invariant s -> invariant (showInstallInstructions deviceType s).
Proof.
  intros Hi; apply invariant_inv in Hi.
  assert (H1 : inv (appendChild (handle (root (document s)))
                      (dialog (fresh s) deviceType) (document s))
                   (fresh s + 11)).
  { apply inv_appendChild with (n := fresh s); try assumption; try lia.
    - rewrite dialog_handles; distinct_offsets.
    - rewrite dialog_handles; repeat (constructor; [lia|]); constructor.
    - rewrite dialog_no_button; destruct Hi as (_ & _ & Hc & _); lia.
    - intros el Hin Hid; exfalso.
      now apply (count_zero_no_id installBtnId (dialog (fresh s) deviceType) el
                   (dialog_no_button _ _)). }
  apply invariant_inv; unfold showInstallInstructions.
  unfold on_document, set_document, set_fresh; simpl.
  fold (dialog (fresh s) deviceType).
  destruct (getElementById "closeIosMsg" _) as [close|] eqn:Ec; simpl;
    [|exact H1].
  apply inv_update; try reflexivity; [|exact H1].
  intros el Hin Hid Hh; exfalso.
  destruct H1 as (Hnd & _).
  destruct (deref_found _ _ _ Hnd Ec) as (ec & _ & Hinc & Hhc & Hidc).
  assert (el = ec)
    by (apply (nodup_handle_inj _ el ec Hnd Hin Hinc); congruence).
  subst ec; rewrite Hid in Hidc; discriminate.
Qed.

Lemma invariant_detectAndShowInstructions v s :
  invariant s -> invariant (detectAndShowInstructions v s).
Proof.
  intros Hi; rewrite detectAndShowInstructions_spec.
  destruct (instructions_for v); [now apply invariant_showInstallInstructions|].
  assumption.
Qed.

Lemma invariant_on_document (f : node -> node) s :
  (forall d n, inv d n -> inv (f d) n) ->
  invariant s -> invariant (on_document f s).
Proof.
  intros Hf Hi; apply invariant_inv; simpl; apply Hf; now apply invariant_inv.
Qed.

Lemma invariant_install_click_resume btn o s :
  invariant s -> invariant (install_click_resume btn o s).
Proof.
  intros Hi; unfold install_click_resume.
  apply invariant_on_document; [intros; now apply inv_remove|].
  apply invariant_inv; simpl; now apply invariant_inv.
Qed.

Lemma invariant_run_listener v l s :
  invariant s -> invariant (run_listener v l s).
Proof.
  intros Hi; destruct l as [btn|modal]; simpl.
  - unfold install_click; destruct (deferredPrompt s) as [| |e];
      try now apply invariant_detectAndShowInstructions.
    destruct (lookup e (settled (emit (Prompt e) s))).
    + apply invariant_install_click_resume.
      apply invariant_inv; simpl; now apply invariant_inv.
    + apply invariant_inv; simpl; now apply invariant_inv.
  - unfold close_dialog, setTimeout.
    apply invariant_inv; simpl; apply inv_set_style; now apply invariant_inv.
Qed.

Lemma invariant_run_task t s :
  invariant s -> invariant (run_task t s).
Proof.
  intros Hi; destruct t as [btn|modal|]; simpl.
  - unfold animate; apply invariant_inv; simpl.
    do 2 apply inv_set_style; now apply invariant_inv.
  - apply invariant_on_document; [intros; now apply inv_remove | assumption].
  - now apply invariant_createInstallButton.
Qed.

Lemma invariant_fold {A : Type} (f : state -> A -> state) (l : list A) :
  (forall s a, invariant s -> invariant (f s a)) ->
  forall s, invariant s -> invariant (fold_left f l s).
Proof.
  intros Hf; induction l as [|a r IH]; simpl; intros s Hi; [assumption|].
  apply IH, Hf, Hi.
Qed.

(** Every event keeps the invariant. *)
Theorem invariant_step v s ev :
  invariant s -> invariant (step v s ev).
Proof.
  intros Hi; destruct ev as [e| |x|e o|]; simpl.
  - apply invariant_createInstallButton.
    apply invariant_inv; simpl; now apply invariant_inv.
  - unfold on_appinstalled.
    destruct (getElementById installBtnId _);
      [apply invariant_on_document; [intros; now apply inv_remove|]|];
      apply invariant_inv; simpl; now apply invariant_inv.
  - unfold on_click; destruct (deref x (document s)); [|assumption].
    apply invariant_fold; [|assumption].
    intros; now apply invariant_run_listener.
  - unfold on_userChoice; destruct (lookup e (settled s)); [assumption|].
    apply invariant_fold.
    + intros; now apply invariant_install_click_resume.
    + apply invariant_inv; simpl; now apply invariant_inv.
  - unfold on_tick; apply invariant_fold.
    + intros; now apply invariant_run_task.
    + apply invariant_inv; simpl; now apply invariant_inv.
Qed.

(** The script starts in the invariant on every page whose elements are
    distinct objects and that has no element with the button's id. *)
Theorem invariant_boot v page :
  NoDup (handles page) ->
  getElementById installBtnId page = None ->
  invariant (boot v page).
Proof.
  intros Hnd Hb; rewrite boot_spec; apply invariant_inv; simpl.
  apply getElementById_none_count in Hb.
  repeat split.
  - assumption.
  - apply page_handles_fresh.
  - rewrite Hb; lia.
  - intro Hid; apply (count_zero_no_id installBtnId page (root page) Hb);
      [apply root_in_elements | assumption].
  - intros el Hin Hid; exfalso.
    now apply (count_zero_no_id installBtnId page el Hb).
Qed.

(** So does every state the script reaches from there. *)
Theorem invariant_reachable v page evs :
  NoDup (handles page) ->
  getElementById installBtnId page = None ->
  invariant (run v (boot v page) evs).
Proof.
  intros Hnd Hb; unfold run; apply invariant_fold.
  - intros; now apply invariant_step.
  - now apply invariant_boot.
Qed.

(** ** The native install flow *)

Lemma genuine_root d : genuine_button d -> el_id (root d) <> installBtnId.
Proof. now intros [Hr _]. Qed.

(** From a state that holds the event and shows the button: the click
    opens the prompt and suspends; the answer resumes the handler, which
    logs, clears the variable and removes the button. *)
Lemma armed_click_choice v s1 e o b el :
  deferredPrompt s1 = Stashed e ->
  new_event e s1 ->
  deref b (document s1) = Some el ->
  onclick el = [InstallClick b] ->
  getElementById installBtnId (document s1) = Some b ->
  count_id installBtnId (document s1) <= 1 ->
  el_id (root (document s1)) <> installBtnId ->
  let s2 := step v s1 (Click b) in
  let s3 := step v s2 (UserChoice e o) in
  s2 = State (Stashed e) (document s1) (fresh s1) (timers s1)
             (awaiting s1 ++ [(e, b)]) (settled s1) (output s1 ++ [Prompt e]) /\
  s3 = State Null (remove b (document s1)) (fresh s1) (timers s1)
             (awaiting s1) (settled s1 ++ [(e, o)])
             (output s1 ++
              [Prompt e;
               Log ("User response to the install prompt: " ++ outcome_string o)%string]) /\
  count_id installBtnId (document s3) = 0.
Proof.
  intros Hd [Hs Ha] Hel Hon Hb Hc Hr s2 s3.
  assert (E2 : s2 = State (Stashed e) (document s1) (fresh s1) (timers s1)
                          (awaiting s1 ++ [(e, b)]) (settled s1)
                          (output s1 ++ [Prompt e])).
  { subst s2; simpl; unfold on_click; rewrite Hel, Hon; simpl.
    unfold install_click; rewrite Hd; simpl; rewrite Hs.
    unfold set_awaiting, emit; simpl; now rewrite Hd. }
  assert (E3 : s3 = State Null (remove b (document s1)) (fresh s1) (timers s1)
                          (awaiting s1) (settled s1 ++ [(e, o)])
                          (output s1 ++
                           [Prompt e;
                            Log ("User response to the install prompt: "
                                 ++ outcome_string o)%string])).
  { subst s3; rewrite E2; simpl; unfold on_userChoice; simpl; rewrite Hs.
    destruct (not_awaited e (awaiting s1) Ha) as [F1 F2].
    rewrite !filter_app, F1, F2; simpl; rewrite Nat.eqb_refl; simpl.
    unfold install_click_resume, on_document, emit, set_deferredPrompt,
      set_document; simpl.
    now rewrite app_nil_r, <- app_assoc. }
  repeat split; try assumption.
  rewrite E3; simpl; apply getElementById_none_count.
  now apply button_gone_after_remove.
Qed.

(** C1.  Can-install signal, click of the install button, the user's
    answer: whatever the answer, the variable ends as [null] and the
    button is out of the document.  It happens once: until the answer the
    variable holds the event and the button stays; the handler resumes
    once (one log line), nothing is left suspended, and a further
    resolution of the same promise does nothing.  The flow may start in
    any state of the invariant whose document has the container (the
    button may be there already, made by the proactive path); the event
    object is new. *)
Theorem native_flow_clears_once (v : env) (s : state) (e : nat) (o : outcome) :
  invariant s ->
  getElementById "taskbarContainer" (document s) <> None ->
  new_event e s ->
  let s1 := step v s (BeforeInstallPrompt e) in
  exists b,
    getElementById installBtnId (document s1) = Some b /\
    let s2 := step v s1 (Click b) in
    let s3 := step v s2 (UserChoice e o) in
    (deferredPrompt s1 = Stashed e /\ count_id installBtnId (document s1) = 1) /\
    (deferredPrompt s2 = Stashed e /\ count_id installBtnId (document s2) = 1) /\
    deferredPrompt s3 = Null /\
    count_id installBtnId (document s3) = 0 /\
    getElementById installBtnId (document s3) = None /\
    awaiting s3 = awaiting s /\
    output s3 =
      output s ++
      [ PreventDefault e; Log "PWA Install Triggered"; Prompt e;
        Log ("User response to the install prompt: " ++ outcome_string o)%string ] /\
    (forall o', step v s3 (UserChoice e o') = s3).
Proof.
  intros (Hnd & Hf & Hc & Hg) Hcont [Hs Ha] s1.
  set (s0 := emit (Log "PWA Install Triggered")
               (set_deferredPrompt (Stashed e) (emit (PreventDefault e) s))).
  assert (E1 : s1 = createInstallButton s0) by reflexivity.
  assert (Hready : exists b el,
             getElementById installBtnId (document s1) = Some b /\
             deref b (document s1) = Some el /\
             onclick el = [InstallClick b] /\
             count_id installBtnId (document s1) = 1 /\
             el_id (root (document s1)) <> installBtnId /\
             deferredPrompt s1 = Stashed e /\
             awaiting s1 = awaiting s /\ settled s1 = settled s /\
             output s1 = output s ++ [PreventDefault e; Log "PWA Install Triggered"]).
  { destruct (getElementById installBtnId (document s)) as [b|] eqn:Eb.
    - rewrite (createInstallButton_present s0 b Eb) in E1.
      destruct (deref_found _ _ _ Hnd Eb) as (el & Hel & Hin & Hh & Hid).
      pose proof (proj2 Hg el Hin Hid) as Hon; rewrite Hh in Hon.
      exists b, el; rewrite E1; simpl; repeat split; try assumption.
      + assert (count_id installBtnId (document s) <> 0)
          by (intro Z; apply getElementById_none_count in Z; congruence).
        lia.
      + now apply genuine_root.
      + now rewrite <- app_assoc.
    - destruct (getElementById "taskbarContainer" (document s)) as [p|] eqn:Ep;
        [|contradiction].
      rewrite (createInstallButton_creates s0 p Ep Eb Hf) in E1.
      pose proof (getElementById_in _ _ _ Ep) as Hp.
      exists (fresh s), (root (install_button (fresh s))); rewrite E1; simpl.
      repeat split.
      + now apply getElementById_appendChild_new.
      + apply (deref_appendChild_new p (install_button (fresh s)));
          [assumption | assumption | now apply fresh_not_in].
      + rewrite count_id_appendChild by assumption.
        apply getElementById_none_count in Eb; now rewrite Eb.
      + rewrite root_appendChild; now apply genuine_root.
      + now rewrite <- app_assoc. }
  destruct Hready as (b & el & Hb & Hel & Hon & Hc1 & Hr1 & Hd1 & Ha1 & Hs1 & Ho1).
  exists b; split; [exact Hb|].
  intros s2 s3.
  destruct (armed_click_choice v s1 e o b el) as (E2 & E3 & Hz);
    try assumption; [split; [now rewrite Hs1 | now rewrite Ha1] | lia |].
  fold s2 in E2, E3, Hz; fold s3 in E3, Hz.
  split; [now split|].
  split; [rewrite E2; simpl; now split|].
  split; [now rewrite E3|].
  split; [exact Hz|].
  split; [now apply getElementById_none_count|].
  split; [now rewrite E3; simpl|].
  split.
  - rewrite E3; simpl; rewrite Ho1, <- app_assoc; reflexivity.
  - intros o'; rewrite E3; simpl; unfold on_userChoice; simpl.
    now rewrite lookup_app_new, Hs1, Hs.
Qed.

Lemma native_flow_clears_once_witness :
  let s3 := run chrome_linux (boot chrome_linux sample_page)
                [BeforeInstallPrompt 7; Click 4; UserChoice 7 dismissed] in
  deferredPrompt s3 = Null /\ count_id installBtnId (document s3) = 0.
Proof.
  assert (Hi : invariant (boot chrome_linux sample_page))
    by (apply invariant_boot; [apply sample_page_nodup | reflexivity]).
  assert (Hp : getElementById "taskbarContainer"
                 (document (boot chrome_linux sample_page)) <> None)
    by (vm_compute; discriminate).
  assert (Hn : new_event 7 (boot chrome_linux sample_page))
    by (split; [reflexivity | intros x []]).
  destruct (native_flow_clears_once chrome_linux (boot chrome_linux sample_page)
              7 dismissed Hi Hp Hn) as (b & Hb & _ & _ & Hd & Hz & _).
  vm_compute in Hb; injection Hb as <-.
  split; [exact Hd | exact Hz].
Defined.

(** ** Standalone display and the dialog path *)

(** C2 at the failing input: the display-mode query reports standalone,
    the start-up check takes the environment for standalone, and the
    dialog path still shows the Mac dialog. *)
Theorem dialog_shown_in_standalone_display_mode :
  let v := mac_standalone_window in
  let s := boot v sample_page in
  displayModeStandalone v = true /\
  Startup.isStandalone v = true /\
  instructions_for v = Some "Mac" /\
  dialogs (document s) = [] /\
  List.length (dialogs (document (detectAndShowInstructions v s))) = 1.
Proof. repeat split. Qed.

(** ** The stored handle and the installed signal *)

(** C3 at the failing input.  The installed signal never touches the
    variable: line 57 clears it after a prompt, the listener of lines
    160-164 has no such line.  On Chrome on a Mac, after the can-install
    signal and then the installed signal the button is gone and the
    variable still holds the event; when the start-up timer then brings
    the button back, a click on it calls [prompt] on that stale event. *)
Theorem appinstalled_leaves_stale_handle :
  (forall v s, deferredPrompt (step v s AppInstalled) = deferredPrompt s) /\
  let v := chrome_mac in
  let s := run v (boot v sample_page) [BeforeInstallPrompt 7; AppInstalled] in
  let s' := run v s (repeat Tick 1000) in
  deferredPrompt s = Stashed 7 /\
  count_id installBtnId (document s) = 0 /\
  getElementById installBtnId (document s') = Some 11 /\
  deferredPrompt s' = Stashed 7 /\
  prompts (output s') = [] /\
  prompts (output (step v s' (Click 11))) = [7].
Proof.
  split.
  - intros v s; simpl; unfold on_appinstalled; simpl.
    now destruct (getElementById installBtnId (document s)).
  - vm_compute; repeat split.
Qed.

(** ** Creating the button twice *)

(** C4.  Button creation is idempotent: a second call in a row changes
    nothing at all, whatever the state; and on a page with the container
    and no element of that id yet, the two calls leave exactly one element
    with the id [pwaInstallBtn], a child of the container, carrying the
    single click listener of the first call. *)
Theorem createInstallButton_idempotent :
  (forall s, createInstallButton (createInstallButton s) = createInstallButton s) /\
  (forall s p,
      well_formed s ->
      getElementById "taskbarContainer" (document s) = Some p ->
      getElementById installBtnId (document s) = None ->
      let s2 := createInstallButton (createInstallButton s) in
      count_id installBtnId (document s2) = 1 /\
      getElementById installBtnId (document s2) = Some (fresh s) /\
      In (fresh s) (children_of p (document s2)) /\
      option_map onclick (deref (fresh s) (document s2)) = Some [InstallClick (fresh s)] /\
      timers s2 = timers s ++ [(100, Animate (fresh s))]).
Proof.
  assert (Hidem : forall s,
             createInstallButton (createInstallButton s) = createInstallButton s).
  { intros s; destruct (createInstallButton_finds_button s) as [E|[b Hb]].
    - now rewrite !E.
    - now apply createInstallButton_present with b. }
  split; [exact Hidem|].
  intros s p [Hnd Hf] Hc Hb s2; subst s2; rewrite Hidem.
  rewrite (createInstallButton_creates s p Hc Hb Hf); simpl.
  pose proof (getElementById_in _ _ _ Hc) as Hp.
  repeat split.
  - rewrite count_id_appendChild by assumption.
    apply getElementById_none_count in Hb; rewrite Hb; reflexivity.
  - now apply getElementById_appendChild_new.
  - now apply (children_of_appendChild p (install_button (fresh s))).
  - rewrite (deref_appendChild_new p (install_button (fresh s)));
      [reflexivity | assumption | assumption | now apply fresh_not_in].
Qed.

Lemma createInstallButton_idempotent_witness :
  let s := boot chrome_linux sample_page in
  count_id installBtnId (document (createInstallButton (createInstallButton s))) = 1.
Proof.
  intros s.
  assert (Hwf : well_formed s) by (apply boot_well_formed, sample_page_nodup).
  destruct (proj2 createInstallButton_idempotent s 1 Hwf eq_refl eq_refl) as [H _].
  exact H.
Defined.

(** ** The proactive path *)

(** C5.  The start-up code sets the creation timer, 1000 ms, exactly when
    the environment is not standalone and classifies as iOS, iPadOS or
    macOS.  With time alone passing, nothing is in the document before the
    1000 ms are over; on a page with the container and no element of the
    button's id, the button is there at 1000 ms exactly under that
    condition; and where the standalone flag is true nothing is ever
    created, whatever the platform. *)
Theorem proactive_button_iff (v : env) (page : node) :
  let s0 := boot v page in
  (proactive v = true <-> Startup.isStandalone v = false /\ classify v <> Other) /\
  timers s0 = (if proactive v then [(1000, CreateInstallButton)] else []) /\
  (forall n, n < 1000 -> document (run v s0 (repeat Tick n)) = page) /\
  (NoDup (handles page) ->
   getElementById "taskbarContainer" page <> None ->
   getElementById installBtnId page = None ->
   (count_id installBtnId (document (run v s0 (repeat Tick 1000))) = 1
    <-> proactive v = true) /\
   (count_id installBtnId (document (run v s0 (repeat Tick 1000))) = 0
    <-> proactive v = false)) /\
  (Startup.isStandalone v = true -> forall n, run v s0 (repeat Tick n) = s0) /\
  (standalone v = Some true -> forall n, document (run v s0 (repeat Tick n)) = page).
Proof.
  intros s0.
  assert (Hoff : proactive v = false -> forall n, run v s0 (repeat Tick n) = s0).
  { intros H n; apply ticks_idle; subst s0; rewrite boot_spec, H; reflexivity. }
  assert (Hsa : Startup.isStandalone v = true -> proactive v = false)
    by (unfold proactive; now intros ->).
  split; [|split; [|split; [|split; [|split]]]].
  - unfold proactive; rewrite andb_true_iff, negb_true_iff.
    now rewrite startup_test_classify.
  - subst s0; rewrite boot_spec; reflexivity.
  - intros n Hn; destruct (proactive v) eqn:Ep.
    + rewrite (ticks_wait v n s0 (999 - n) CreateInstallButton).
      * subst s0; simpl; apply boot_document.
      * subst s0; rewrite boot_spec, Ep; simpl timers.
        do 2 f_equal; lia.
    + rewrite (Hoff eq_refl n); apply boot_document.
  - intros Hnd Hc Hb; destruct (proactive v) eqn:Ep.
    + assert (E : count_id installBtnId
                    (document (run v s0 (repeat Tick 1000))) = 1).
      { rewrite (ticks_fire v s0 999 CreateInstallButton)
          by (subst s0; rewrite boot_spec, Ep; reflexivity).
        subst s0; rewrite boot_spec, Ep; simpl run_task.
        destruct (getElementById "taskbarContainer" page) as [p|] eqn:Ec;
          [|contradiction].
        rewrite (createInstallButton_creates _ p); simpl; try assumption.
        - rewrite count_id_appendChild;
            [|eapply getElementById_in; eauto | assumption].
          apply getElementById_none_count in Hb; now rewrite Hb.
        - apply page_handles_fresh. }
      rewrite E; split; split; congruence.
    + rewrite (Hoff eq_refl 1000); subst s0; rewrite boot_document.
      apply getElementById_none_count in Hb; rewrite Hb.
      split; split; congruence.
  - intros H n; apply Hoff, Hsa, H.
  - intros H n; rewrite Hoff; [apply boot_document|].
    apply Hsa; unfold Startup.isStandalone; rewrite H; apply orb_true_r.
Qed.

Lemma proactive_button_iff_witness :
  proactive safari_iphone = true /\
  count_id installBtnId
    (document (run safari_iphone (boot safari_iphone sample_page) (repeat Tick 1000))) = 1.
Proof.
  split; [reflexivity|].
  destruct (proactive_button_iff safari_iphone sample_page) as (_ & _ & _ & H & _).
  destruct (H sample_page_nodup) as [[_ H1] _];
    [vm_compute; discriminate | reflexivity | apply H1; reflexivity].
Defined.

(** ** Platform classes *)

Lemma macintel_matches_mac_pattern :
  (0 <=? Js.indexOf (Js.toUpperCase "MacIntel") "MAC")%Z = true.
Proof. reflexivity. Qed.

(** C6.  With platform string "MacIntel" and more than one touch point the
    dialog path classifies the environment as iPadOS and not as macOS,
    although the platform string matches the Mac pattern: the dialog shown
    is the iPad one (none when already standalone), never the Mac one. *)
Theorem macintel_with_touch_is_ipados (v : env) :
  platform v = "MacIntel" ->
  1 < maxTouchPoints v ->
  Detect.isIpadOS v = true /\
  Detect.isMac v = false /\
  classify v = IPadOS /\
  (0 <=? Js.indexOf (Js.toUpperCase (platform v)) "MAC")%Z = true /\
  instructions_for v <> Some "Mac" /\
  instructions_for v = (if Detect.isInStandaloneMode v then None else Some "iPad") /\
  (forall s, detectAndShowInstructions v s =
             if Detect.isInStandaloneMode v then s
             else showInstallInstructions "iPad" s).
Proof.
  intros Hp Ht.
  assert (Hi : Detect.isIpadOS v = true).
  { unfold Detect.isIpadOS; rewrite Hp; simpl; now apply Nat.ltb_lt. }
  assert (Hm : Detect.isMac v = false).
  { unfold Detect.isMac; rewrite Hi; simpl; apply andb_false_r. }
  assert (Hf : instructions_for v =
               if Detect.isInStandaloneMode v then None else Some "iPad").
  { unfold instructions_for; rewrite Hi, Hm, orb_true_r; simpl.
    now destruct (Detect.isInStandaloneMode v). }
  repeat split; try assumption.
  - unfold classify; now rewrite Hi.
  - rewrite Hp; exact macintel_matches_mac_pattern.
  - rewrite Hf; destruct (Detect.isInStandaloneMode v); discriminate.
  - intros s; rewrite detectAndShowInstructions_spec, Hf.
    now destruct (Detect.isInStandaloneMode v).
Qed.

Lemma macintel_with_touch_is_ipados_witness :
  platform safari_ipad = "MacIntel" /\
  1 < maxTouchPoints safari_ipad /\
  instructions_for safari_ipad = Some "iPad".
Proof.
  split; [reflexivity|]; split; [simpl; lia|].
  destruct (macintel_with_touch_is_ipados safari_ipad) as (_ & _ & _ & _ & _ & H & _);
    [reflexivity | simpl; lia | exact H].
Defined.

Lemma has_token_iphone_isIos v :
  has_token "iPhone" (userAgent v) = true -> Detect.isIos v = true.
Proof.
  unfold has_token, Detect.isIos, apple_mobile_re.
  change (Js.toLowerCase "iPhone") with "iphone".
  now intros ->.
Qed.

(** C7.  A user agent with an iPhone token, on an environment that is not
    "MacIntel" with more than one touch point, is classified as iOS by the
    dialog path, never as macOS or iPadOS: the dialog shown is the iOS one
    (none when already standalone). *)
Theorem iphone_token_is_ios (v : env) :
  has_token "iPhone" (userAgent v) = true ->
  ~ (platform v = "MacIntel" /\ 1 < maxTouchPoints v) ->
  Detect.isIos v = true /\
  Detect.isIpadOS v = false /\
  Detect.isMac v = false /\
  classify v = IOS /\
  instructions_for v = (if Detect.isInStandaloneMode v then None else Some "iOS") /\
  (forall s, detectAndShowInstructions v s =
             if Detect.isInStandaloneMode v then s
             else showInstallInstructions "iOS" s).
Proof.
  intros Hu Hn.
  pose proof (has_token_iphone_isIos v Hu) as Hi.
  assert (Hp : Detect.isIpadOS v = false).
  { unfold Detect.isIpadOS.
    destruct (String.eqb_spec (platform v) "MacIntel") as [E|E]; [|reflexivity].
    destruct (Nat.ltb_spec 1 (maxTouchPoints v)) as [L|L]; [|reflexivity].
    exfalso; apply Hn; now split. }
  assert (Hm : Detect.isMac v = false).
  { unfold Detect.isMac; rewrite Hi; simpl; now rewrite andb_false_r. }
  assert (Hf : instructions_for v =
               if Detect.isInStandaloneMode v then None else Some "iOS").
  { unfold instructions_for; rewrite Hi, Hp, Hm; simpl.
    now destruct (Detect.isInStandaloneMode v). }
  repeat split; try assumption.
  - unfold classify; now rewrite Hp, Hi.
  - intros s; rewrite detectAndShowInstructions_spec, Hf.
    now destruct (Detect.isInStandaloneMode v).
Qed.

Lemma iphone_token_is_ios_witness :
  has_token "iPhone" (userAgent safari_iphone) = true /\
  classify safari_iphone = IOS /\
  instructions_for safari_iphone = Some "iOS".
Proof.
  assert (Hn : ~ (platform safari_iphone = "MacIntel" /\ 1 < maxTouchPoints safari_iphone))
    by (intros [E _]; discriminate E).
  destruct (iphone_token_is_ios safari_iphone eq_refl Hn) as (_ & _ & _ & Hc & Hf & _).
  split; [reflexivity|]; split; [exact Hc | exact Hf].
Defined.

(** ** The installed signal and the button *)

(** C8.  The installed signal removes the install button whatever the
    rest of the state is, on any document that holds at most one element
    with the button's id (never the body); when no such element is there
    it changes nothing (it only logs), and a repeated signal changes
    nothing more. *)
Theorem appinstalled_removes_button (v : env) (s : state) :
  count_id installBtnId (document s) <= 1 ->
  el_id (root (document s)) <> installBtnId ->
  let s' := step v s AppInstalled in
  getElementById installBtnId (document s') = None /\
  count_id installBtnId (document s') = 0 /\
  deferredPrompt s' = deferredPrompt s /\
  timers s' = timers s /\ awaiting s' = awaiting s /\ settled s' = settled s /\
  output s' = output s ++ [Log "PWA was installed"] /\
  (getElementById installBtnId (document s) = None ->
   s' = emit (Log "PWA was installed") s) /\
  step v s' AppInstalled = emit (Log "PWA was installed") s'.
Proof.
  intros Hc Hr s'; subst s'; simpl.
  assert (Hnone : getElementById installBtnId (document (on_appinstalled s)) = None).
  { unfold on_appinstalled; simpl.
    destruct (getElementById installBtnId (document s)) as [b|] eqn:Eb; simpl.
    - now apply button_gone_after_remove.
    - exact Eb. }
  split; [exact Hnone|].
  split; [now apply getElementById_none_count|].
  unfold on_appinstalled in *; simpl in *.
  destruct (getElementById installBtnId (document s)) as [b|] eqn:Eb; simpl in *;
    repeat split; try reflexivity; try discriminate.
  - now rewrite Hnone.
  - now rewrite Eb.
Qed.

Lemma appinstalled_removes_button_witness :
  let s := run chrome_linux (boot chrome_linux sample_page) [BeforeInstallPrompt 1] in
  count_id installBtnId (document s) = 1 /\
  count_id installBtnId (document (step chrome_linux s AppInstalled)) = 0.
Proof.
  intros s; split; [reflexivity|].
  destruct (appinstalled_removes_button chrome_linux s) as (_ & H & _);
    [vm_compute; lia | vm_compute; discriminate | exact H].
Defined.

(** ** The instructions dialog *)

(** A dialog for one of the three device types the script passes, shown
    while no other element carries the id [closeIosMsg], has the close
    listener on its own button; a click there sets the dialog's opacity to
    0 and sets a 300 ms timer, and when that fires the dialog is out of
    the document, which is then what it was before the dialog was shown.
    With nothing else scheduled, the faded dialog stays for the 300 ms and
    is gone at 300. *)
Lemma lone_dialog_closes (v : env) (s : state) (deviceType : string) :
  In deviceType ["iPad"; "iOS"; "Mac"] ->
  well_formed s ->
  getElementById "closeIosMsg" (document s) = None ->
  let m := fresh s in
  let body := handle (root (document s)) in
  let s1 := showInstallInstructions deviceType s in
  let s2 := step v s1 (Click (m + 10)) in
  document s1 = appendChild body (open_dialog m deviceType) (document s) /\
  getElementById "closeIosMsg" (document s1) = Some (m + 10) /\
  count_id "closeIosMsg" (document s1) = 1 /\
  document s2 =
    appendChild body (update m (set_style "opacity" "0") (open_dialog m deviceType))
                (document s) /\
  option_map (get_style "opacity") (deref m (document s2)) = Some (Some "0") /\
  timers s2 = timers s ++ [(300, RemoveModal m)] /\
  document (run_task (RemoveModal m) s2) = document s /\
  (timers s = [] ->
   (forall n, n < 300 -> document (run v s2 (repeat Tick n)) = document s2) /\
   document (run v s2 (repeat Tick 300)) = document s).
Proof.
  intros _ Hwf Hnone m body s1 s2.
  pose proof Hwf as [Hnd Hf].
  assert (Hm : forall k, ~ In (m + k) (handles (document s))).
  { intros k Hin; apply (proj1 (Forall_forall _ _) Hf) in Hin; subst m; lia. }
  assert (Hm0 : ~ In m (handles (document s)))
    by (replace m with (m + 0) by lia; apply Hm).
  pose proof (root_handle_in (document s)) as Hbody; fold body in Hbody.
  assert (E1 : s1 = State (deferredPrompt s)
                 (appendChild body (open_dialog m deviceType) (document s))
                 (fresh s + 11) (timers s) (awaiting s) (settled s) (output s))
    by (apply showInstallInstructions_alone; assumption).
  assert (E2 : s2 = State (deferredPrompt s)
                 (appendChild body
                    (update m (set_style "opacity" "0") (open_dialog m deviceType))
                    (document s))
                 (fresh s + 11) (timers s ++ [(300, RemoveModal m)])
                 (awaiting s) (settled s) (output s)).
  { subst s2; rewrite E1; simpl; unfold on_click; simpl.
    rewrite deref_appendChild_fresh by (try assumption; apply Hm).
    pose proof (open_dialog_close_listener m deviceType) as Hl.
    destruct (deref (m + 10) (open_dialog m deviceType)) as [el|];
      [|discriminate].
    injection Hl as ->; simpl.
    unfold close_dialog, setTimeout, on_document, set_timers, set_document; simpl.
    f_equal; now apply update_appendChild. }
  assert (Hgone : remove m (document s2) = document s).
  { rewrite E2; cbn [document]; apply remove_appendChild; [assumption|].
    rewrite root_update_handle by reflexivity; apply open_dialog_root. }
  split; [now rewrite E1|].
  split.
  { rewrite E1; cbn [document].
    rewrite getElementById_appendChild_fresh by assumption.
    unfold open_dialog; rewrite getElementById_update by reflexivity.
    apply dialog_close_button. }
  split.
  { rewrite E1; cbn [document].
    rewrite count_id_appendChild by assumption.
    apply getElementById_none_count in Hnone; rewrite Hnone.
    unfold open_dialog; rewrite count_id_update by reflexivity.
    unfold dialog, modal_markup, instructions_markup.
    destruct (String.eqb deviceType "Mac"); reflexivity. }
  split; [now rewrite E2|].
  split.
  { rewrite E2; cbn [document].
    rewrite deref_appendChild_fresh by assumption.
    unfold open_dialog, dialog, deref; simpl; offsets; reflexivity. }
  split; [now rewrite E2|].
  split; [exact Hgone|].
  intros Ht.
  assert (Ht2 : timers s2 = [(300, RemoveModal m)])
    by (rewrite E2; simpl; now rewrite Ht).
  split.
  - intros n Hn.
    rewrite (ticks_wait v n s2 (299 - n) (RemoveModal m)); [reflexivity|].
    rewrite Ht2; do 2 f_equal; lia.
  - rewrite (ticks_fire v s2 299 (RemoveModal m) Ht2); exact Hgone.
Qed.

(** C9 at the failing input.  On an iPhone, once the button is there, two
    clicks on it leave two dialogs in the document: nothing in
    [showInstallInstructions] looks for an open one.  The lookup of line
    153 then finds the close button of the first dialog: the close
    listener of the second dialog sits there, a click on the second
    dialog's own close button does nothing however long one waits, and a
    click on the first dialog's close button removes both. *)
Theorem two_dialogs_one_close_button :
  let v := safari_iphone in
  let s := run v (boot v sample_page) (repeat Tick 1000 ++ [Click 4; Click 4]) in
  map (fun n => handle (root n)) (dialogs (document s)) = [11; 22] /\
  map (fun el => (handle el, onclick el))
      (filter (fun el => String.eqb (el_id el) "closeIosMsg") (elements (document s)))
  = [(21, [CloseDialog 11; CloseDialog 22]); (32, [])] /\
  step v s (Click 32) = s /\
  List.length (dialogs (document (run v s (Click 32 :: repeat Tick 300)))) = 2 /\
  List.length (dialogs (document (run v s (Click 21 :: repeat Tick 299)))) = 2 /\
  dialogs (document (run v s (Click 21 :: repeat Tick 300))) = [].
Proof. vm_compute; repeat split. Qed.

(** ** A second can-install signal *)

(** C10.  A second can-install signal while a handle is stored and the
    button is shown: the default UI is suppressed again, the stored handle
    becomes the new event, and the repeated creation call does nothing, so
    the one button stays the only one. *)
Theorem second_signal_replaces_handle (v : env) (s : state) (e1 e2 : nat) :
  deferredPrompt s = Stashed e1 ->
  count_id installBtnId (document s) = 1 ->
  let s' := step v s (BeforeInstallPrompt e2) in
  s' = State (Stashed e2) (document s) (fresh s) (timers s) (awaiting s) (settled s)
             (output s ++ [PreventDefault e2; Log "PWA Install Triggered"]) /\
  deferredPrompt s' = Stashed e2 /\
  count_id installBtnId (document s') = 1.
Proof.
  intros _ Hc s'; subst s'; simpl.
  assert (E : on_beforeinstallprompt e2 s =
              State (Stashed e2) (document s) (fresh s) (timers s) (awaiting s)
                    (settled s)
                    (output s ++ [PreventDefault e2; Log "PWA Install Triggered"])).
  { unfold on_beforeinstallprompt.
    destruct (getElementById installBtnId (document s)) as [b|] eqn:Eb.
    - rewrite (createInstallButton_present _ b) by exact Eb.
      unfold emit, set_deferredPrompt; simpl; now rewrite <- app_assoc.
    - apply getElementById_none_count in Eb; rewrite Eb in Hc; discriminate. }
  rewrite E; simpl; repeat split; assumption.
Qed.

Lemma second_signal_replaces_handle_witness :
  let s := run chrome_linux (boot chrome_linux sample_page) [BeforeInstallPrompt 1] in
  deferredPrompt s = Stashed 1 /\
  deferredPrompt (step chrome_linux s (BeforeInstallPrompt 2)) = Stashed 2 /\
  count_id installBtnId (document (step chrome_linux s (BeforeInstallPrompt 2))) = 1.
Proof.
  intros s; split; [reflexivity|].
  destruct (second_signal_replaces_handle chrome_linux s 1 2) as (_ & Hd & Hc);
    [reflexivity | reflexivity | split; [exact Hd | exact Hc]].
Defined.

(** ** The scenarios of the specification, run *)

(** Signal, click, accept: the handle is [null] and the page is as it was;
    the installed signal then finds no button and leaves the page alone. *)
Example scenario_native_then_installed :
  let v := chrome_linux in
  let s := run v (boot v sample_page)
               [BeforeInstallPrompt 7; Click 4; UserChoice 7 accepted] in
  deferredPrompt s = Null /\
  document s = sample_page /\
  document (step v s AppInstalled) = sample_page /\
  output (step v s AppInstalled) =
    [ PreventDefault 7; Log "PWA Install Triggered"; Prompt 7;
      Log "User response to the install prompt: accepted";
      Log "PWA was installed" ].
Proof. vm_compute; repeat split. Qed.

(** Safari on an iPhone: no signal ever fires, the button comes after the
    start-up delay, and a click on it opens the iOS dialog without
    touching any prompt. *)
Example scenario_iphone_instructions :
  let v := safari_iphone in
  let s := run v (boot v sample_page) (repeat Tick 1000 ++ [Click 4]) in
  deferredPrompt s = Undefined /\
  output s = [] /\
  map (fun n => match n with
                | Node _ (Node heading _ :: _) => text heading
                | _ => ""
                end) (dialogs (document s)) = ["INSTALL ON IOS"].
Proof. vm_compute; repeat split. Qed.

(** ** What the listeners leave alone *)


Lemma prompts_app a b : prompts (a ++ b) = prompts a ++ prompts b.
Proof.
  induction a as [|x r IH]; simpl; [reflexivity|].
  destruct x; simpl; now rewrite IH.
Qed.


Lemma showInstallInstructions_frame deviceType s :
  deferredPrompt (showInstallInstructions deviceType s) = deferredPrompt s /\
  output (showInstallInstructions deviceType s) = output s /\
  awaiting (showInstallInstructions deviceType s) = awaiting s /\
  settled (showInstallInstructions deviceType s) = settled s /\
  timers (showInstallInstructions deviceType s) = timers s.
Proof.
  unfold showInstallInstructions.
  destruct (getElementById "closeIosMsg" _); now repeat split.
Qed.

Lemma detectAndShowInstructions_frame v s :
  deferredPrompt (detectAndShowInstructions v s) = deferredPrompt s /\
  output (detectAndShowInstructions v s) = output s /\
  awaiting (detectAndShowInstructions v s) = awaiting s /\
  settled (detectAndShowInstructions v s) = settled s /\
  timers (detectAndShowInstructions v s) = timers s.
Proof.
  rewrite detectAndShowInstructions_spec.
  destruct (instructions_for v); [apply showInstallInstructions_frame|].
  now repeat split.
Qed.



Lemma moved_refl s : moved s s.
Proof. split; [now left | intros e H; now left]. Qed.

Lemma moved_trans s1 s2 s3 : moved s1 s2 -> moved s2 s3 -> moved s1 s3.
Proof.
  intros [H1 P1] [H2 P2]; split.
  - destruct H2 as [H2|H2]; [rewrite H2; exact H1 | now right].
  - intros e He; destruct (P2 e He) as [Hin|Hst]; [now apply P1|].
    destruct H1 as [H1|H1]; [right; congruence | congruence].
Qed.

Lemma run_listener_moved v l s : moved s (run_listener v l s).
Proof.
  destruct l as [btn|modal]; simpl.
  - unfold install_click; destruct (deferredPrompt s) as [| |e] eqn:Ed.
    + destruct (detectAndShowInstructions_frame v s) as (Hd & Ho & _).
      split; [left; congruence | intros e He; left; now rewrite <- Ho].
    + destruct (detectAndShowInstructions_frame v s) as (Hd & Ho & _).
      split; [left; congruence | intros e He; left; now rewrite <- Ho].
    + destruct (lookup e (settled (emit (Prompt e) s))); simpl.
      * split; [now right|].
        intros e' He'; unfold install_click_resume, emit in He'; simpl in He'.
        rewrite !prompts_app in He'; simpl in He'; rewrite app_nil_r in He'.
        apply in_app_or in He'; destruct He' as [H|[<-|[]]]; [now left | now right].
      * split; [now left|].
        intros e' He'; unfold emit in He'; simpl in He'.
        rewrite prompts_app in He'.
        apply in_app_or in He'; destruct He' as [H|[<-|[]]]; [now left | now right].
  - split; [now left | intros e He; now left].
Qed.

Lemma click_moved v x s : moved s (on_click v x s).
Proof.
  unfold on_click; destruct (deref x (document s)) as [el|]; [|apply moved_refl].
  generalize (onclick el) as ls; intros ls.
  assert (H : forall s', moved s s' ->
                         moved s (fold_left (fun s l => run_listener v l s) ls s')).
  { induction ls as [|l r IH]; intros s' Hm; simpl; [assumption|].
    apply IH; eapply moved_trans; [exact Hm | apply run_listener_moved]. }
  apply H, moved_refl.
Qed.





(** Only the can-install signal stores a handle: every other event leaves
    the variable as it is or sets it to [null]. *)
Theorem only_signal_stores_handle (v : env) (s : state) (ev : event) :
  (forall e, ev <> BeforeInstallPrompt e) ->
  deferredPrompt (step v s ev) = deferredPrompt s \/
  deferredPrompt (step v s ev) = Null.
Proof.
  intros Hev; destruct ev as [e| |x|e o|]; simpl.
  - now elim (Hev e).
  - left; unfold on_appinstalled; now destruct (getElementById installBtnId _).
  - apply (click_moved v x s).
  - unfold on_userChoice; destruct (lookup e (settled s)); [now left|].
    destruct (filter (fun p : nat * nat => fst p =? e) (awaiting s)) as [|p r] eqn:Ef.
    + now left.
    + right; apply resumed_handle_null; discriminate.
  - left; apply tick_keeps_handle.
Qed.

Lemma only_signal_stores_handle_witness :
  let s := run chrome_linux (boot chrome_linux sample_page)
               [BeforeInstallPrompt 7; Click 4] in
  deferredPrompt (step chrome_linux s (UserChoice 7 dismissed)) = Null /\
  deferredPrompt (step chrome_linux s (Click 4)) = Stashed 7.
Proof.
  intros s; split; [|reflexivity].
  destruct (only_signal_stores_handle chrome_linux s (UserChoice 7 dismissed)) as [H|H];
    [intros e; discriminate | vm_compute in H; discriminate H | exact H].
Defined.

(** With no handle stored ([undefined] or [null]) a click never reaches
    the native flow: whatever element is clicked, the variable, the
    output, the suspended handlers and the resolved promises are what they
    were; at most a dialog is shown or faded. *)
Theorem click_without_handle (v : env) (s : state) (x : nat) :
  (forall e, deferredPrompt s <> Stashed e) ->
  let s' := step v s (Click x) in
  deferredPrompt s' = deferredPrompt s /\
  output s' = output s /\
  awaiting s' = awaiting s /\
  settled s' = settled s.
Proof.
  intros Hd s'; subst s'; simpl; unfold on_click.
  destruct (deref x (document s)) as [el|]; [|now repeat split].
  generalize (onclick el) as ls; intros ls.
  assert (H : forall s0,
             deferredPrompt s0 = deferredPrompt s /\ output s0 = output s /\
             awaiting s0 = awaiting s /\ settled s0 = settled s ->
             let r := fold_left (fun s l => run_listener v l s) ls s0 in
             deferredPrompt r = deferredPrompt s /\ output r = output s /\
             awaiting r = awaiting s /\ settled r = settled s).
  { induction ls as [|l r IH]; intros s0 H0; simpl; [assumption|].
    apply IH; destruct H0 as (E1 & E2 & E3 & E4).
    destruct l as [btn|modal]; simpl.
    - unfold install_click.
      destruct (detectAndShowInstructions_frame v s0) as (F1 & F2 & F3 & F4 & _).
      destruct (deferredPrompt s0) as [| |e] eqn:Ed;
        [repeat split; congruence | repeat split; congruence|].
      exfalso; apply (Hd e); congruence.
    - now repeat split. }
  apply H; now repeat split.
Qed.

Lemma click_without_handle_witness :
  let v := safari_iphone in
  let s := run v (boot v sample_page) (repeat Tick 1000) in
  deferredPrompt (step v s (Click 4)) = Undefined /\
  output (step v s (Click 4)) = [].
Proof.
  intros v s.
  destruct (click_without_handle v s 4) as (Hd & Ho & _);
    [intros e; vm_compute; discriminate|].
  split; [rewrite Hd | rewrite Ho]; reflexivity.
Defined.

(** ** A page without the container *)

Lemma elements_appendChild_root c d :
  elements (appendChild (handle (root d)) c d) = elements d ++ elements c.
Proof.
  destruct d as [el kids]; simpl; rewrite Nat.eqb_refl; simpl.
  rewrite flat_map_app; simpl; now rewrite app_nil_r.
Qed.

Lemma count_id_appendChild_root i c d :
  count_id i (appendChild (handle (root d)) c d) = count_id i d + count_id i c.
Proof.
  unfold count_id; now rewrite elements_appendChild_root, filter_app, length_app.
Qed.

Lemma dialog_no_container m deviceType :
  count_id "taskbarContainer" (dialog m deviceType) = 0.
Proof.
  unfold dialog, modal_markup, instructions_markup.
  destruct (String.eqb deviceType "Mac"); reflexivity.
Qed.

Lemma count_id_remove_zero i x d :
  count_id i d = 0 -> count_id i (remove x d) = 0.
Proof.
  intros H; pose proof (filter_count_remove (fun el => String.eqb (el_id el) i) x d).
  unfold count_id in *; lia.
Qed.

Lemma count_id_showInstallInstructions i deviceType s :
  count_id i (dialog (fresh s) deviceType) = 0 ->
  count_id i (document (showInstallInstructions deviceType s))
  = count_id i (document s).
Proof.
  intros Hz; unfold showInstallInstructions.
  unfold on_document, set_document, set_fresh; simpl.
  fold (dialog (fresh s) deviceType).
  destruct (getElementById "closeIosMsg" _); simpl;
    rewrite ?count_id_update by reflexivity;
    rewrite count_id_appendChild_root, Hz; lia.
Qed.

Lemma count_id_detectAndShowInstructions i v s :
  (forall m deviceType, count_id i (dialog m deviceType) = 0) ->
  count_id i (document (detectAndShowInstructions v s)) = count_id i (document s).
Proof.
  intros Hz; rewrite detectAndShowInstructions_spec.
  destruct (instructions_for v); [|reflexivity].
  apply count_id_showInstallInstructions, Hz.
Qed.

(** No container and no button: a property of the document that every
    listener and callback keeps. *)
Lemma bare_step v s ev :
  count_id "taskbarContainer" (document s) = 0 ->
  count_id installBtnId (document s) = 0 ->
  count_id "taskbarContainer" (document (step v s ev)) = 0 /\
  count_id installBtnId (document (step v s ev)) = 0.
Proof.
  set (bare := fun s => count_id "taskbarContainer" (document s) = 0 /\
                        count_id installBtnId (document s) = 0).
  intros H1 H2; assert (Hs : bare s) by (now split); clear H1 H2.
  change (bare (step v s ev)).
  assert (Hcreate : forall s, bare s -> bare (createInstallButton s)).
  { intros s0 [Hc Hb]; rewrite createInstallButton_no_container; [now split|].
    now apply getElementById_none_count. }
  assert (Hremove : forall x s, bare s -> bare (on_document (remove x) s)).
  { intros x s0 [Hc Hb]; split; simpl; now apply count_id_remove_zero. }
  assert (Hdetect : forall s, bare s -> bare (detectAndShowInstructions v s)).
  { intros s0 [Hc Hb]; split.
    - rewrite count_id_detectAndShowInstructions; [assumption|].
      apply dialog_no_container.
    - rewrite count_id_detectAndShowInstructions; [assumption|].
      apply dialog_no_button. }
  assert (Hresume : forall b o s, bare s -> bare (install_click_resume b o s)).
  { intros b o s0 Hs0; unfold install_click_resume.
    apply Hremove; exact Hs0. }
  assert (Hfold : forall (A : Type) (f : state -> A -> state) (l : list A),
             (forall s a, bare s -> bare (f s a)) ->
             forall s, bare s -> bare (fold_left f l s)).
  { intros A f l Hf; induction l as [|a r IH]; simpl; intros s0 Hs0;
      [assumption | apply IH, Hf, Hs0]. }
  destruct ev as [e| |x|e o|]; simpl.
  - apply Hcreate; exact Hs.
  - unfold on_appinstalled.
    destruct (getElementById installBtnId _); [apply Hremove|]; exact Hs.
  - unfold on_click; destruct (deref x (document s)); [|exact Hs].
    apply Hfold; [|exact Hs].
    intros s0 [btn|modal] Hs0; simpl.
    + unfold install_click; destruct (deferredPrompt s0) as [| |e0];
        try (now apply Hdetect).
      destruct (lookup e0 _); [apply Hresume|]; exact Hs0.
    + destruct Hs0 as [Hc Hb]; split; simpl;
        now rewrite count_id_update by reflexivity.
  - unfold on_userChoice; destruct (lookup e (settled s)); [exact Hs|].
    apply Hfold; [|exact Hs].
    intros s0 p Hs0; now apply Hresume.
  - unfold on_tick; apply Hfold; [|exact Hs].
    intros s0 p Hs0; destruct (snd p); simpl.
    + destruct Hs0 as [Hc Hb]; unfold animate; split; simpl;
        now rewrite !count_id_update by reflexivity.
    + now apply Hremove.
    + now apply Hcreate.
Qed.

(** On a page that has no element with the id [taskbarContainer] (and
    none with the button's id), no sequence of events ever puts an install
    button into the document: creation returns at its first line, from the
    signal and from the start-up timer alike.  The signal still stores its
    event. *)
Theorem no_container_no_button (v : env) (page : node) (evs : list event) :
  getElementById "taskbarContainer" page = None ->
  getElementById installBtnId page = None ->
  getElementById installBtnId (document (run v (boot v page) evs)) = None /\
  (forall e, deferredPrompt (step v (run v (boot v page) evs) (BeforeInstallPrompt e))
             = Stashed e).
Proof.
  intros Hc Hb; split.
  - apply getElementById_none_count.
    apply getElementById_none_count in Hc, Hb.
    assert (H : forall s,
               count_id "taskbarContainer" (document s) = 0 ->
               count_id installBtnId (document s) = 0 ->
               count_id installBtnId (document (run v s evs)) = 0).
    { induction evs as [|ev r IH]; intros s H1 H2; simpl; [assumption|].
      destruct (bare_step v s ev H1 H2) as [H1' H2']; now apply IH. }
    apply H; now rewrite boot_document.
  - intros e; simpl; unfold on_beforeinstallprompt.
    now rewrite createInstallButton_keeps_handle.
Qed.

Lemma no_container_no_button_witness :
  let v := safari_iphone in
  getElementById installBtnId
    (document (run v (boot v bare_page)
                   (BeforeInstallPrompt 1 :: repeat Tick 1000))) = None.
Proof.
  intros v.
  destruct (no_container_no_button v bare_page
              (BeforeInstallPrompt 1 :: repeat Tick 1000) eq_refl eq_refl) as [H _].
  exact H.
Defined.

(** ** The entry animation *)

Lemma run_app v s a b : run v s (a ++ b) = run v (run v s a) b.
Proof. unfold run; apply fold_left_app. Qed.

Lemma run_cons v s ev l : run v s (ev :: l) = run v (step v s ev) l.
Proof. reflexivity. Qed.

Lemma tick_age s :
  Forall (fun p => 1 < fst p) (timers s) ->
  on_tick s = set_timers (map (fun p => (pred (fst p), snd p)) (timers s)) s.
Proof.
  intros H; unfold on_tick.
  assert (Hdr : filter (fun p : nat * task => fst p =? 0)
                  (map (fun p => (pred (fst p), snd p)) (timers s)) = [] /\
                filter (fun p : nat * task => negb (fst p =? 0))
                  (map (fun p => (pred (fst p), snd p)) (timers s))
                = map (fun p => (pred (fst p), snd p)) (timers s)).
  { induction H as [|p r Hp _ [IH1 IH2]]; simpl; [now split|].
    destruct (Nat.eqb_spec (pred (fst p)) 0); [lia|]; simpl.
    now rewrite IH2. }
  destruct Hdr as [Hd Hr]; now rewrite Hd, Hr.
Qed.

Lemma ticks_age v n : forall s,
  Forall (fun p => n < fst p) (timers s) ->
  run v s (repeat Tick n)
  = set_timers (map (fun p => (fst p - n, snd p)) (timers s)) s.
Proof.
  induction n as [|n IH]; intros s H; simpl.
  - unfold set_timers.
    replace (map (fun p => (fst p - 0, snd p)) (timers s)) with (timers s);
      [symmetry; apply state_eta|].
    rewrite <- (map_id (timers s)) at 1; apply map_ext.
    intros [d t]; simpl; f_equal; lia.
  - rewrite tick_age by (eapply Forall_impl; [|exact H]; simpl; intros; lia).
    rewrite IH.
    + unfold set_timers; simpl; f_equal; rewrite map_map.
      apply map_ext; intros [d t]; simpl; f_equal; lia.
    + simpl; apply Forall_forall; intros p Hp.
      apply in_map_iff in Hp; destruct Hp as (q & <- & Hq); simpl.
      apply (proj1 (Forall_forall _ _) H) in Hq; lia.
Qed.

(** The button comes into the document hidden and offset, with the
    transition set; it stays so while the 100 ms of the animation timer
    run, and at 100 ms it is opaque and settled.  (Page with the container
    and no button; nothing else scheduled.) *)
Theorem entry_animation (v : env) (s : state) (p : nat) :
  well_formed s ->
  getElementById "taskbarContainer" (document s) = Some p ->
  getElementById installBtnId (document s) = None ->
  timers s = [] ->
  let b := fresh s in
  let s1 := createInstallButton s in
  (style_of b "opacity" (document s1) = Some "0" /\
   style_of b "transform" (document s1) = Some "translateY(20px)" /\
   style_of b "transition" (document s1) = Some "all 0.5s ease") /\
  (forall n, n < 100 -> document (run v s1 (repeat Tick n)) = document s1) /\
  let s2 := run v s1 (repeat Tick 100) in
  document s2 = appendChild p (shown_button b) (document s) /\
  (style_of b "opacity" (document s2) = Some "1" /\
   style_of b "transform" (document s2) = Some "translateY(0)" /\
   style_of b "transition" (document s2) = Some "all 0.5s ease") /\
  timers s2 = [].
Proof.
  intros [Hnd Hf] Hc Hb Ht b s1.
  pose proof (getElementById_in _ _ _ Hc) as Hp.
  pose proof (fresh_not_in s Hf) as Hfresh.
  assert (E1 : s1 = State (deferredPrompt s)
                 (appendChild p (install_button b) (document s))
                 (fresh s + 7) [(100, Animate b)]
                 (awaiting s) (settled s) (output s)).
  { subst s1 b; rewrite (createInstallButton_creates s p Hc Hb Hf), Ht;
      reflexivity. }
  assert (Hstyle : forall c k,
             handle (root c) = b ->
             style_of b k (appendChild p c (document s)) = get_style k (root c)).
  { intros c k Hr; unfold style_of.
    rewrite <- Hr, (deref_appendChild_new p c (document s)); try assumption;
      [reflexivity | now rewrite Hr]. }
  split; [|split].
  - rewrite E1; simpl; rewrite !Hstyle by reflexivity; now repeat split.
  - intros n Hn.
    rewrite (ticks_wait v n s1 (99 - n) (Animate b)); [reflexivity|].
    rewrite E1; cbn [timers]; do 2 f_equal; lia.
  - intros s2.
    assert (E2 : s2 = State (deferredPrompt s)
                   (appendChild p (shown_button b) (document s))
                   (fresh s + 7) [] (awaiting s) (settled s) (output s)).
    { subst s2; rewrite (ticks_fire v s1 99 (Animate b)) by (now rewrite E1).
      rewrite E1; simpl; unfold animate, on_document, set_document, set_timers; simpl.
      f_equal; rewrite !update_appendChild by assumption.
      unfold install_button; now rewrite !update_button by reflexivity. }
    rewrite E2; simpl; rewrite !Hstyle by reflexivity; now repeat split.
Qed.

Lemma entry_animation_witness :
  let v := chrome_linux in
  let s := boot v sample_page in
  style_of 4 "opacity" (document (createInstallButton s)) = Some "0" /\
  style_of 4 "opacity"
    (document (run v (createInstallButton s) (repeat Tick 100))) = Some "1".
Proof.
  intros v s.
  assert (Hwf : well_formed s) by (apply boot_well_formed, sample_page_nodup).
  destruct (entry_animation v s 1 Hwf eq_refl eq_refl eq_refl)
    as ((H0 & _) & _ & _ & (H1 & _) & _).
  split; [exact H0 | exact H1].
Defined.



(** ** The button and the passing of time *)

Lemma calm_aged (t : list (nat * task)) (q : nat * task -> bool) :
  calm t -> calm (filter q (map (fun p => (pred (fst p), snd p)) t)).
Proof.
  unfold calm; intros H; apply Forall_forall; intros p Hp.
  apply filter_In in Hp; destruct Hp as [Hp _].
  apply in_map_iff in Hp; destruct Hp as (p0 & <- & Hp0); simpl.
  now apply (proj1 (Forall_forall _ _) H).
Qed.

(** A callback other than the removal of a dialog, run while the button
    is in the document, leaves the button, the timers and the variables
    of the script as they are. *)
Lemma calm_run_task t s b :
  match t with RemoveModal _ => False | _ => True end ->
  getElementById installBtnId (document s) = Some b ->
  getElementById installBtnId (document (run_task t s)) = Some b /\
  count_id installBtnId (document (run_task t s)) = count_id installBtnId (document s) /\
  timers (run_task t s) = timers s /\
  deferredPrompt (run_task t s) = deferredPrompt s /\
  output (run_task t s) = output s.
Proof.
  intros Ht Hb; destruct t as [btn|modal|]; simpl; [|contradiction|].
  - unfold animate; simpl.
    rewrite !getElementById_update, !count_id_update by reflexivity.
    now repeat split.
  - rewrite (createInstallButton_present s b Hb); now repeat split.
Qed.

Lemma calm_tick s b :
  calm (timers s) ->
  getElementById installBtnId (document s) = Some b ->
  calm (timers (on_tick s)) /\
  getElementById installBtnId (document (on_tick s)) = Some b /\
  count_id installBtnId (document (on_tick s)) = count_id installBtnId (document s) /\
  deferredPrompt (on_tick s) = deferredPrompt s /\
  output (on_tick s) = output s.
Proof.
  intros Hc Hb; unfold on_tick.
  set (aged := map (fun p => (pred (fst p), snd p)) (timers s)).
  pose proof (calm_aged (timers s) (fun p => fst p =? 0) Hc) as Hdue.
  pose proof (calm_aged (timers s) (fun p => negb (fst p =? 0)) Hc) as Hrest.
  fold aged in Hdue, Hrest.
  set (s0 := set_timers (filter (fun p => negb (fst p =? 0)) aged) s).
  assert (H0 : calm (timers s0) /\
               getElementById installBtnId (document s0) = Some b /\
               count_id installBtnId (document s0) = count_id installBtnId (document s) /\
               deferredPrompt s0 = deferredPrompt s /\
               output s0 = output s) by (now repeat split).
  clearbody s0; revert s0 H0.
  induction Hdue as [|p r Hp _ IH]; intros s0 H0; simpl; [exact H0|].
  apply IH; destruct H0 as (C & G & N & D & O).
  destruct (calm_run_task (snd p) s0 b Hp G) as (G' & N' & T' & D' & O').
  repeat split; congruence.
Qed.

(** Once the signal has put the button into the document, time alone
    never removes or doubles it, whatever the platform: at 100 ms the
    animation timer only restyles it, and the start-up timer (where one is
    set) finds it at 1000 ms and does nothing.  The stored event and the
    output stay as the signal left them. *)
Theorem button_survives_time (v : env) (page : node) (e n : nat) :
  NoDup (handles page) ->
  getElementById "taskbarContainer" page <> None ->
  getElementById installBtnId page = None ->
  let b := S (list_max (handles page)) in
  let s := run v (boot v page) (BeforeInstallPrompt e :: repeat Tick n) in
  getElementById installBtnId (document s) = Some b /\
  count_id installBtnId (document s) = 1 /\
  deferredPrompt s = Stashed e /\
  output s = [PreventDefault e; Log "PWA Install Triggered"].
Proof.
  intros Hnd Hc Hb b s.
  destruct (getElementById "taskbarContainer" page) as [p|] eqn:Ep;
    [clear Hc | contradiction].
  set (s1 := step v (boot v page) (BeforeInstallPrompt e)).
  assert (H1 : calm (timers s1) /\
               getElementById installBtnId (document s1) = Some b /\
               count_id installBtnId (document s1) = 1 /\
               deferredPrompt s1 = Stashed e /\
               output s1 = [PreventDefault e; Log "PWA Install Triggered"]).
  { subst s1; rewrite boot_spec; simpl; unfold on_beforeinstallprompt.
    rewrite (createInstallButton_creates _ p); simpl;
      [|assumption | assumption | apply page_handles_fresh].
    pose proof (getElementById_in _ _ _ Ep) as Hp.
    repeat split.
    - unfold calm; destruct (proactive v); simpl; repeat constructor.
    - now apply getElementById_appendChild_new.
    - rewrite count_id_appendChild by assumption.
      apply getElementById_none_count in Hb; now rewrite Hb. }
  change s with (run v s1 (repeat Tick n)).
  clearbody s1; clear s; revert s1 H1.
  induction n as [|n IH]; intros s1 H1; simpl; [tauto|].
  apply IH; destruct H1 as (C & G & N & D & O).
  destruct (calm_tick s1 b C G) as (C' & G' & N' & D' & O').
  repeat split; congruence.
Qed.

Lemma button_survives_time_witness :
  let v := safari_mac in
  let s := run v (boot v sample_page) (BeforeInstallPrompt 7 :: repeat Tick 1500) in
  count_id installBtnId (document s) = 1 /\ deferredPrompt s = Stashed 7.
Proof.
  intros v s.
  destruct (button_survives_time v sample_page 7 1500 sample_page_nodup)
    as (_ & Hc & Hd & _);
    [vm_compute; discriminate | reflexivity | split; [exact Hc | exact Hd]].
Defined.

(** The installed signal inside the start-up delay does not keep the
    button away on an Apple platform: the signal of installation removes
    the button, the start-up timer then finds none and creates a new one
    at 1000 ms.  The variable still holds the event of the can-install
    signal, so a click on the new button calls [prompt] on that event. *)
Theorem button_returns_after_install (v : env) (page : node) (p e : nat) :
  proactive v = true ->
  NoDup (handles page) ->
  getElementById "taskbarContainer" page = Some p ->
  getElementById installBtnId page = None ->
  let b := S (list_max (handles page)) in
  let s := run v (boot v page)
               ([BeforeInstallPrompt e; AppInstalled] ++ repeat Tick 1000) in
  document (run v (boot v page) [BeforeInstallPrompt e; AppInstalled]) = page /\
  document s = appendChild p (install_button (b + 7)) page /\
  getElementById installBtnId (document s) = Some (b + 7) /\
  deferredPrompt s = Stashed e /\
  prompts (output s) = [] /\
  prompts (output (step v s (Click (b + 7)))) = [e].
Proof.
  intros Hpro Hnd Hc Hb b s.
  pose proof (getElementById_in _ _ _ Hc) as Hp.
  pose proof (page_handles_fresh page) as Hf; fold b in Hf.
  assert (Hfresh : forall k, ~ In (b + k) (handles page)).
  { intros k Hin; apply (proj1 (Forall_forall _ _) Hf) in Hin; lia. }
  assert (Hb0 : ~ In b (handles page))
    by (replace b with (b + 0) by lia; apply Hfresh).
  set (out := [PreventDefault e; Log "PWA Install Triggered"; Log "PWA was installed"]).
  assert (E2 : run v (boot v page) [BeforeInstallPrompt e; AppInstalled]
               = State (Stashed e) page (b + 7)
                       [(1000, CreateInstallButton); (100, Animate b)] [] [] out).
  { rewrite boot_spec, Hpro; simpl; unfold on_beforeinstallprompt.
    rewrite (createInstallButton_creates _ p); simpl; try assumption.
    unfold on_appinstalled; simpl.
    rewrite getElementById_appendChild_new by (try assumption; reflexivity).
    unfold on_document, set_document; simpl.
    now rewrite remove_appendChild by (try assumption; reflexivity). }
  assert (E3 : s = State (Stashed e) (appendChild p (install_button (b + 7)) page)
                         (b + 7 + 7) [(100, Animate (b + 7))] [] [] out).
  { subst s; rewrite run_app, E2.
    change (repeat Tick 1000) with (repeat Tick 99 ++ Tick :: repeat Tick 900).
    rewrite run_app, ticks_age by (simpl; repeat constructor; lia).
    cbn [timers map fst snd Nat.sub set_timers deferredPrompt document fresh
                awaiting settled output].
    rewrite run_cons; cbn [step].
    unfold on_tick; cbn [timers map filter fst snd pred Nat.eqb negb fold_left
                                set_timers deferredPrompt document fresh awaiting
                                settled output run_task].
    unfold animate, on_document, set_document; simpl document.
    rewrite !(update_fresh b _ page) by assumption.
    rewrite (ticks_fire v _ 899 CreateInstallButton) by reflexivity.
    cbn [run_task set_timers deferredPrompt document fresh awaiting settled output].
    rewrite (createInstallButton_creates _ p); simpl; try assumption;
      [reflexivity|].
    eapply Forall_impl; [|exact Hf]; simpl; intros; lia. }
  split; [now rewrite E2|].
  split; [now rewrite E3|].
  split; [rewrite E3; simpl; now apply getElementById_appendChild_new|].
  split; [now rewrite E3|].
  split; [now rewrite E3|].
  pose proof (deref_appendChild_new p (install_button (b + 7)) page Hp Hnd
                (Hfresh 7)) as Hd.
  change (handle (root (install_button (b + 7)))) with (b + 7) in Hd.
  rewrite E3; cbn [step]; unfold on_click; cbn [document]; rewrite Hd.
  reflexivity.
Qed.

Lemma button_returns_after_install_witness :
  let v := safari_mac in
  let s := run v (boot v sample_page)
               ([BeforeInstallPrompt 7; AppInstalled] ++ repeat Tick 1000) in
  getElementById installBtnId (document s) = Some 11 /\
  prompts (output (step v s (Click 11))) = [7].
Proof.
  intros v s.
  destruct (button_returns_after_install v sample_page 1 7 eq_refl
              sample_page_nodup eq_refl eq_refl) as (_ & _ & Hb & _ & _ & Hp).
  split; [exact Hb | exact Hp].
Defined.

(** ** Which dialog, and with which guidance *)

(** The decision of lines 95-100, by platform class. *)
Lemma instructions_for_classify v :
  instructions_for v =
  if Detect.isInStandaloneMode v then None
  else match classify v with
       | IPadOS => Some "iPad"
       | IOS => Some "iOS"
       | MacOS => Some "Mac"
       | Other => None
       end.
Proof.
  unfold instructions_for, classify.
  unfold Detect.isMac; destruct (Detect.isIos v), (Detect.isIpadOS v),
    (Detect.isInStandaloneMode v), (0 <=? _)%Z; reflexivity.
Qed.

Lemma bold_texts_update x f d :
  (forall el, tagName (f el) = tagName el) ->
  (forall el, text (f el) = text el) ->
  bold_texts (update x f d) = bold_texts d.
Proof.
  intros Htag Htext; unfold bold_texts; rewrite elements_update.
  induction (elements d) as [|a r IH]; simpl; [reflexivity|].
  replace (tagName (if handle a =? x then f a else a)) with (tagName a)
    by (destruct (handle a =? x); now rewrite ?Htag).
  destruct (String.eqb (tagName a) "b"); simpl; [|exact IH].
  rewrite IH; f_equal; destruct (handle a =? x); now rewrite ?Htext.
Qed.

Lemma dialog_heading_update x f d :
  (forall el, text (f el) = text el) ->
  dialog_heading (update x f d) = dialog_heading d.
Proof.
  intros Htext; destruct d as [el [|[h hk] r]]; simpl; [reflexivity|].
  destruct (handle h =? x); now rewrite ?Htext.
Qed.

Lemma open_dialog_texts m :
  (dialog_heading (open_dialog m "iPad") = "INSTALL ON IPAD" /\
   bold_texts (open_dialog m "iPad") = [(dquote ++ "Add to Home Screen" ++ dquote)%string]) /\
  (dialog_heading (open_dialog m "iOS") = "INSTALL ON IOS" /\
   bold_texts (open_dialog m "iOS") = [(dquote ++ "Add to Home Screen" ++ dquote)%string]) /\
  (dialog_heading (open_dialog m "Mac") = "INSTALL ON MAC" /\
   bold_texts (open_dialog m "Mac") = ["Share"; (dquote ++ "Add to Dock" ++ dquote)%string]).
Proof.
  unfold open_dialog.
  rewrite !dialog_heading_update, !bold_texts_update by reflexivity.
  repeat split.
Qed.

(** What the dialog path shows on each platform class, when the
    standalone flag is not set and no dialog is open: a heading that names
    the platform; on a Mac the guidance to use Share and "Add to Dock", on
    a phone or tablet the guidance "Add to Home Screen"; on any other
    platform nothing at all. *)
Theorem dialog_by_platform (v : env) (s : state) :
  well_formed s ->
  getElementById "closeIosMsg" (document s) = None ->
  Detect.isInStandaloneMode v = false ->
  let s' := detectAndShowInstructions v s in
  let shows (heading : string) (guidance : list string) :=
      exists dlg,
        document s' = appendChild (handle (root (document s))) dlg (document s) /\
        handle (root dlg) = fresh s /\
        dialog_heading dlg = heading /\
        bold_texts dlg = guidance in
  match classify v with
  | IPadOS => shows "INSTALL ON IPAD" [(dquote ++ "Add to Home Screen" ++ dquote)%string]
  | IOS => shows "INSTALL ON IOS" [(dquote ++ "Add to Home Screen" ++ dquote)%string]
  | MacOS => shows "INSTALL ON MAC" ["Share"; (dquote ++ "Add to Dock" ++ dquote)%string]
  | Other => s' = s
  end.
Proof.
  intros Hwf Hnone Hst s' shows; subst s' shows.
  rewrite detectAndShowInstructions_spec, instructions_for_classify, Hst.
  destruct (open_dialog_texts (fresh s)) as ((P1 & P2) & (I1 & I2) & (M1 & M2)).
  destruct (classify v); [| | |reflexivity];
    rewrite (showInstallInstructions_alone s _ Hwf Hnone); cbn [document];
    eexists; (split; [reflexivity|]); (split; [apply open_dialog_root|]);
    now split.
Qed.

Lemma dialog_by_platform_witness :
  let s := run safari_mac (boot safari_mac sample_page) [] in
  classify safari_mac = MacOS /\
  exists dlg,
    document (detectAndShowInstructions safari_mac s)
    = appendChild (handle (root (document s))) dlg (document s) /\
    dialog_heading dlg = "INSTALL ON MAC".
Proof.
  intros s; split; [reflexivity|].
  assert (Hwf : well_formed s) by (apply boot_well_formed, sample_page_nodup).
  pose proof (dialog_by_platform safari_mac s Hwf eq_refl eq_refl) as H.
  change (classify safari_mac) with MacOS in H; cbv zeta in H.
  destruct H as (dlg & Hd & _ & Hh & _).
  exists dlg; split; [exact Hd | exact Hh].
Defined.

Lemma proactive_not_standalone v :
  proactive v = true ->
  Detect.isInStandaloneMode v = false /\ classify v <> Other.
Proof.
  intros H; unfold proactive in H; apply andb_true_iff in H; destruct H as [Hs Hc].
  split; [|now apply startup_test_classify].
  apply negb_true_iff in Hs; unfold Startup.isStandalone in Hs.
  apply orb_false_iff in Hs; destruct Hs as [_ Hs].
  unfold Detect.isInStandaloneMode.
  destruct (standalone v) as [[|]|]; [discriminate | reflexivity | reflexivity].
Qed.

(** The button that the start-up code shows is never dead: wherever the
    start-up check schedules it, the dialog path classifies the same
    environment as an Apple platform that is not standalone, and a click
    on the button (no signal having fired) opens exactly one dialog, with
    no prompt called and nothing logged. *)
Theorem proactive_button_opens_dialog (v : env) (page : node) (p : nat) :
  proactive v = true ->
  NoDup (handles page) ->
  getElementById "taskbarContainer" page = Some p ->
  getElementById installBtnId page = None ->
  getElementById "closeIosMsg" page = None ->
  let b := S (list_max (handles page)) in
  let s := run v (boot v page) (repeat Tick 1000 ++ [Click b]) in
  (exists deviceType,
      instructions_for v = Some deviceType /\
      document s =
        appendChild (handle (root page)) (open_dialog (b + 7) deviceType)
                    (appendChild p (install_button b) page)) /\
  count_id "closeIosMsg" (document s) = 1 /\
  deferredPrompt s = Undefined /\
  output s = [].
Proof.
  intros Hpro Hnd Hc Hb Hx b s.
  pose proof (getElementById_in _ _ _ Hc) as Hp.
  pose proof (page_handles_fresh page) as Hf; fold b in Hf.
  assert (Hb0 : ~ In b (handles page))
    by (intro Hin; apply (proj1 (Forall_forall _ _) Hf) in Hin; lia).
  destruct (proactive_not_standalone v Hpro) as [Hst Hcl].
  assert (Hdt : exists deviceType, instructions_for v = Some deviceType).
  { rewrite instructions_for_classify, Hst.
    destruct (classify v); [eexists; reflexivity ..|now elim Hcl]. }
  destruct Hdt as (deviceType & Hdt).
  set (s1 := State Undefined (appendChild p (install_button b) page) (b + 7)
                   [(100, Animate b)] [] [] []).
  assert (E1 : run v (boot v page) (repeat Tick 1000) = s1).
  { rewrite (ticks_fire v _ 999 CreateInstallButton)
      by (rewrite boot_spec, Hpro; reflexivity).
    rewrite boot_spec, Hpro; cbn [run_task set_timers deferredPrompt document fresh
                                           awaiting settled output].
    now rewrite (createInstallButton_creates _ p). }
  assert (Hwf1 : well_formed s1).
  { assert (Hi : invariant (run v (boot v page) (repeat Tick 1000)))
      by (now apply invariant_reachable).
    rewrite E1 in Hi; destruct Hi as (H1 & H2 & _); now split. }
  assert (Hx1 : getElementById "closeIosMsg" (document s1) = None).
  { subst s1; cbn [document].
    now rewrite getElementById_appendChild_fresh. }
  assert (E2 : s = showInstallInstructions deviceType s1).
  { subst s; rewrite run_app, E1, run_cons; cbn [step run fold_left].
    unfold on_click.
    pose proof (deref_appendChild_new p (install_button b) page Hp Hnd Hb0) as Hd.
    change (handle (root (install_button b))) with b in Hd.
    subst s1; cbn [document]; rewrite Hd; cbn [root install_button onclick fold_left].
    cbn [run_listener]; unfold install_click; cbn [deferredPrompt].
    now rewrite detectAndShowInstructions_spec, Hdt. }
  rewrite E2, (showInstallInstructions_alone s1 deviceType Hwf1 Hx1).
  subst s1; cbn [document deferredPrompt output fresh].
  split; [exists deviceType; split; [exact Hdt|];
          rewrite root_appendChild; reflexivity|].
  split; [|split; reflexivity].
  rewrite count_id_appendChild_root.
  rewrite count_id_appendChild by assumption.
  apply getElementById_none_count in Hx; rewrite Hx.
  unfold open_dialog; rewrite count_id_update by reflexivity.
  unfold dialog, modal_markup, instructions_markup.
  destruct (String.eqb deviceType "Mac"); reflexivity.
Qed.

Lemma proactive_button_opens_dialog_witness :
  let v := safari_mac in
  let s := run v (boot v sample_page) (repeat Tick 1000 ++ [Click 4]) in
  count_id "closeIosMsg" (document s) = 1 /\ output s = [].
Proof.
  intros v s.
  destruct (proactive_button_opens_dialog v sample_page 1 eq_refl sample_page_nodup
              eq_refl eq_refl eq_refl) as (_ & Hc & _ & Ho).
  split; [exact Hc | exact Ho].
Defined.

(** ** More than one click before the answer *)

Lemma remove_idem x d : remove x (remove x d) = remove x d.
Proof.
  induction d as [el kids IH] using node_forall_ind; simpl; f_equal.
  set (keep := fun k => negb (handle (root k) =? x)).
  rewrite (map_fix_kids (remove x)).
  - induction (map (remove x) kids) as [|k r IHr]; simpl; [reflexivity|].
    destruct (keep k) eqn:E; simpl; [now rewrite E, IHr | exact IHr].
  - apply Forall_forall; intros k' Hk'.
    apply filter_In in Hk'; destruct Hk' as [Hk' _].
    apply in_map_iff in Hk'; destruct Hk' as (k & <- & Hk).
    now apply (proj1 (Forall_forall _ _) IH).
Qed.

Lemma filter_repeat_fst e b k :
  filter (fun p : nat * nat => fst p =? e) (repeat (e, b) k) = repeat (e, b) k /\
  filter (fun p : nat * nat => negb (fst p =? e)) (repeat (e, b) k) = [].
Proof.
  induction k as [|k [IH1 IH2]]; simpl; [now split|].
  rewrite Nat.eqb_refl; simpl; now rewrite IH1, IH2.
Qed.

Lemma clicks_armed v e b el k : forall s,
  deferredPrompt s = Stashed e ->
  lookup e (settled s) = None ->
  deref b (document s) = Some el ->
  onclick el = [InstallClick b] ->
  run v s (repeat (Click b) k)
  = State (Stashed e) (document s) (fresh s) (timers s)
          (awaiting s ++ repeat (e, b) k) (settled s)
          (output s ++ repeat (Prompt e) k).
Proof.
  induction k as [|k IH]; intros s Hd Hs Hel Hon.
  - simpl; rewrite !app_nil_r, <- Hd; symmetry; apply state_eta.
  - assert (E : step v s (Click b)
                = State (Stashed e) (document s) (fresh s) (timers s)
                        (awaiting s ++ [(e, b)]) (settled s)
                        (output s ++ [Prompt e])).
    { simpl; unfold on_click; rewrite Hel, Hon; simpl.
      unfold install_click; rewrite Hd; simpl; rewrite Hs.
      unfold set_awaiting, emit; simpl; now rewrite Hd. }
    change (repeat (Click b) (S k)) with (Click b :: repeat (Click b) k).
    rewrite run_cons, E, IH;
      [|reflexivity | assumption | assumption | assumption]; simpl.
    now rewrite <- !app_assoc.
Qed.

Lemma resumed_repeat e b o k : forall s,
  fold_left (fun s (p : nat * nat) => install_click_resume (snd p) o s)
            (repeat (e, b) (S k)) s
  = State Null (remove b (document s)) (fresh s) (timers s) (awaiting s)
          (settled s)
          (output s ++
           repeat (Log ("User response to the install prompt: "
                        ++ outcome_string o)%string) (S k)).
Proof.
  induction k as [|k IH]; intros s; [reflexivity|].
  change (repeat (e, b) (S (S k))) with ((e, b) :: repeat (e, b) (S k)).
  cbn [fold_left]; rewrite IH.
  unfold install_click_resume; simpl.
  now rewrite remove_idem, <- app_assoc.
Qed.

(** Clicks on the button while the native prompt waits for its answer:
    each calls [prompt] on the stored event and suspends; the answer
    resumes them all, so it is logged once per click, and the end is that
    of a single click: the variable is [null], the button is out of the
    document, no handler is left suspended. *)
Theorem clicks_before_answer (v : env) (s : state) (e b k : nat) (o : outcome) :
  invariant s ->
  deferredPrompt s = Stashed e ->
  new_event e s ->
  getElementById installBtnId (document s) = Some b ->
  let s' := run v s (repeat (Click b) (S k) ++ [UserChoice e o]) in
  s' = State Null (remove b (document s)) (fresh s) (timers s) (awaiting s)
             (settled s ++ [(e, o)])
             (output s ++ repeat (Prompt e) (S k) ++
              repeat (Log ("User response to the install prompt: "
                           ++ outcome_string o)%string) (S k)) /\
  count_id installBtnId (document s') = 0.
Proof.
  intros (Hnd & Hf & Hc & Hg) Hd [Hs Ha] Hb s'.
  destruct (deref_found _ _ _ Hnd Hb) as (el & Hel & Hin & Hh & Hid).
  pose proof (proj2 Hg el Hin Hid) as Hon; rewrite Hh in Hon.
  assert (E : s' = State Null (remove b (document s)) (fresh s) (timers s)
                         (awaiting s) (settled s ++ [(e, o)])
                         (output s ++ repeat (Prompt e) (S k) ++
                          repeat (Log ("User response to the install prompt: "
                                       ++ outcome_string o)%string) (S k))).
  { subst s'; rewrite run_app, (clicks_armed v e b el (S k) s Hd Hs Hel Hon).
    rewrite run_cons; cbn [run fold_left step].
    unfold on_userChoice; cbn [settled awaiting]; rewrite Hs.
    destruct (not_awaited e (awaiting s) Ha) as [F1 F2].
    destruct (filter_repeat_fst e b (S k)) as [R1 R2].
    rewrite !filter_app, F1, F2, R1, R2, app_nil_r; cbn [app].
    rewrite resumed_repeat; unfold set_settled, set_awaiting; simpl.
    now rewrite <- !app_assoc. }
  split; [exact E|].
  rewrite E; cbn [document]; apply getElementById_none_count.
  apply button_gone_after_remove; [assumption | now apply genuine_root | assumption].
Qed.

Lemma clicks_before_answer_witness :
  let v := chrome_linux in
  let s := run v (boot v sample_page) [BeforeInstallPrompt 7] in
  let s' := run v s (repeat (Click 4) 2 ++ [UserChoice 7 accepted]) in
  deferredPrompt s' = Null /\
  prompts (output s') = [7; 7] /\
  count_id installBtnId (document s') = 0.
Proof.
  intros v s s'.
  assert (Hi : invariant s)
    by (apply invariant_reachable; [apply sample_page_nodup | reflexivity]).
  assert (Hn : new_event 7 s) by (split; [reflexivity | intros x []]).
  destruct (clicks_before_answer v s 7 4 1 accepted Hi eq_refl Hn eq_refl) as [E Hz].
  fold s' in E, Hz.
  split; [now rewrite E|]; split; [now rewrite E | exact Hz].
Defined.

(** ** The device tokens of the user agent *)

Lemma isIos_tokens v :
  Detect.isIos v =
  has_token "iPhone" (userAgent v) || has_token "iPad" (userAgent v)
  || has_token "iPod" (userAgent v).
Proof. reflexivity. Qed.

Ltac case_pair_cases :=
  intros c; destruct c as [[] [] [] [] [] [] [] []]; vm_compute;
  (split;
   [ intros H; first [discriminate H | left; reflexivity | right; reflexivity]
   | intros [H|H]; first [discriminate H | reflexivity] ]).

(** [toLowerCase] sends exactly the two cases of a letter to its lower
    case: checked on every character, for the letters of the three
    tokens. *)
Lemma lower_ascii_cases :
  Forall case_pair
    [("i", "I"); ("p", "P"); ("h", "H"); ("o", "O"); ("n", "N"); ("e", "E");
     ("a", "A"); ("d", "D")]%char.
Proof. repeat (constructor; [case_pair_cases|]); constructor. Qed.

Lemma token_letters_cases letters :
  In letters [iphone_letters; ipad_letters; ipod_letters] ->
  Forall case_pair letters.
Proof.
  intros H; apply Forall_forall; intros p Hp.
  apply (proj1 (Forall_forall _ _) lower_ascii_cases).
  destruct H as [<-|[<-|[<-|[]]]]; simpl in Hp |- *; tauto.
Qed.

(** A string lowers to the lower-case word exactly when it spells the
    word. *)
Lemma lower_spells letters :
  Forall case_pair letters ->
  forall w, Js.toLowerCase w = lower_word letters <-> spells letters w = true.
Proof.
  unfold Js.toLowerCase, lower_word.
  induction 1 as [|[lo up] r Hp _ IH]; intros [|c w]; simpl;
    try (split; [discriminate | discriminate]).
  - split; reflexivity.
  - specialize (Hp c); simpl in Hp; specialize (IH w).
    rewrite andb_true_iff, orb_true_iff, !Ascii.eqb_eq.
    split.
    + intros E; injection E as E1 E2; split; [now apply Hp | now apply IH].
    + intros [E1 E2]; f_equal; [now apply Hp | now apply IH].
Qed.

Lemma prefix_app p : forall s,
  String.prefix p s = true <-> exists post, s = (p ++ post)%string.
Proof.
  induction p as [|a p IH]; intros s.
  - split; [intros _; now exists s | intros _; now destruct s].
  - destruct s as [|b s]; simpl.
    + split; [discriminate | intros [post E]; discriminate E].
    + destruct (ascii_dec a b) as [->|N].
      * rewrite IH; split; intros [post E]; exists post;
          [now rewrite E | now injection E].
      * split; [discriminate | intros [post E]; injection E as E1 _; now elim N].
Qed.

Lemma includes_app p : forall s,
  Js.includes p s = true <-> exists pre post, s = (pre ++ p ++ post)%string.
Proof.
  induction s as [|c s IH].
  - change (Js.includes p "") with (String.prefix p "" || false).
    rewrite orb_false_r, prefix_app; split.
    + intros [post E]; now exists "", post.
    + intros (pre & post & E); destruct pre; [now exists post | discriminate E].
  - change (Js.includes p (String c s))
      with (String.prefix p (String c s) || Js.includes p s).
    rewrite orb_true_iff, prefix_app, IH; split.
    + intros [[post E]|(pre & post & E)].
      * now exists "", post.
      * exists (String c pre), post; simpl; now rewrite E.
    + intros (pre & post & E); destruct pre as [|d pre].
      * left; now exists post.
      * right; injection E as _ E; now exists pre, post.
Qed.

Lemma map_string_app f a : forall b,
  Js.map_string f (a ++ b) = (Js.map_string f a ++ Js.map_string f b)%string.
Proof. induction a as [|c a IH]; intros b; simpl; [reflexivity | now rewrite IH]. Qed.

Lemma map_string_app_inv f a : forall s b,
  Js.map_string f s = (a ++ b)%string ->
  exists s1 s2, s = (s1 ++ s2)%string /\
                Js.map_string f s1 = a /\ Js.map_string f s2 = b.
Proof.
  induction a as [|c a IH]; intros s b E.
  - now exists "", s.
  - destruct s as [|d s]; [discriminate E|]; simpl in E; injection E as E1 E2.
    destruct (IH s b E2) as (s1 & s2 & -> & H1 & H2).
    exists (String d s1), s2; simpl; now rewrite E1, H1.
Qed.

(** The lower-cased string contains the lower-case word exactly when the
    string itself contains a spelling of the word. *)
Lemma includes_lower_spells letters ua :
  Forall case_pair letters ->
  Js.includes (lower_word letters) (Js.toLowerCase ua) = true <->
  exists pre w post, ua = (pre ++ w ++ post)%string /\ spells letters w = true.
Proof.
  intros Hl; rewrite includes_app; split.
  - intros (a & b & E).
    apply map_string_app_inv in E; destruct E as (pre & rest & -> & _ & E).
    apply map_string_app_inv in E; destruct E as (w & post & -> & E & _).
    exists pre, w, post; split; [reflexivity | now apply (lower_spells letters Hl)].
  - intros (pre & w & post & -> & Hw); apply (lower_spells letters Hl) in Hw.
    exists (Js.toLowerCase pre), (Js.toLowerCase post).
    unfold Js.toLowerCase in *; now rewrite !map_string_app, Hw.
Qed.

(** The test of line 89 holds exactly for the user agents in which
    iPhone, iPad or iPod stands somewhere, each letter in either case.
    Such an environment is never classified as a Mac, whatever its
    platform string; and unless it is "MacIntel" with more than one touch
    point it gets the iOS dialog, an iPad that names itself in the user
    agent included. *)
Theorem apple_mobile_tokens (v : env) :
  (Detect.isIos v = true <-> names_apple_mobile (userAgent v)) /\
  (Detect.isIos v = true ->
   Detect.isMac v = false /\
   classify v <> MacOS /\ classify v <> Other /\
   (Detect.isIpadOS v = false ->
    classify v = IOS /\
    instructions_for v = if Detect.isInStandaloneMode v then None else Some "iOS")).
Proof.
  split.
  - unfold Detect.isIos, apple_mobile_re, names_apple_mobile.
    change "iphone" with (lower_word iphone_letters).
    change "ipad" with (lower_word ipad_letters).
    change "ipod" with (lower_word ipod_letters).
    rewrite !orb_true_iff, !includes_lower_spells
      by (apply token_letters_cases; simpl; tauto).
    split.
    + intros [[(pre & w & post & E & H)|(pre & w & post & E & H)]
             |(pre & w & post & E & H)];
        exists pre, w, post; tauto.
    + intros (pre & w & post & E & [H|[H|H]]);
        [left; left | left; right | right]; now exists pre, w, post.
  - intros Hi.
    assert (Hm : Detect.isMac v = false)
      by (unfold Detect.isMac; rewrite Hi; simpl; now rewrite andb_false_r).
    split; [exact Hm|].
    unfold classify; rewrite Hi.
    split; [destruct (Detect.isIpadOS v); discriminate|].
    split; [destruct (Detect.isIpadOS v); discriminate|].
    intros Hp; rewrite Hp; split; [reflexivity|].
    rewrite instructions_for_classify; unfold classify; rewrite Hp, Hi.
    reflexivity.
Qed.

Lemma apple_mobile_tokens_witness :
  Detect.isIos shouting_iphone = true /\
  Detect.isIos old_ipad = true /\
  classify old_ipad = IOS /\
  instructions_for old_ipad = Some "iOS".
Proof.
  split; [|split].
  - apply (proj1 (apple_mobile_tokens shouting_iphone)).
    exists "MOZILLA/5.0 (", "IPHONE", "; CPU IPHONE OS 17_0 LIKE MAC OS X)".
    split; [reflexivity | left; reflexivity].
  - apply (proj1 (apple_mobile_tokens old_ipad)).
    exists "Mozilla/5.0 (", "iPad",
      "; CPU OS 12_4 like Mac OS X) AppleWebKit/605.1.15 Version/12.1 Mobile/15E148 Safari/604.1".
    split; [reflexivity | right; left; reflexivity].
  - destruct (apple_mobile_tokens old_ipad) as [_ H].
    destruct (H eq_refl) as (_ & _ & _ & H').
    destruct (H' eq_refl) as [Hc Hf]; split; [exact Hc | exact Hf].
Defined.

(** ** The worker registration *)

Lemma worker_filter_one r (l : list nat) :
  NoDup l -> In r l ->
  S (List.length (filter (fun q => negb (q =? r)) l)) = List.length l.
Proof.
  induction l as [|a t IH]; simpl; [contradiction|].
  intros Hnd Hin; apply NoDup_cons_iff in Hnd; destruct Hnd as [Ha Hnd].
  destruct (Nat.eqb_spec a r) as [->|Ne]; simpl.
  - do 2 f_equal; apply filter_keep_all, Forall_forall; intros q Hq.
    apply negb_true_iff, Nat.eqb_neq; intros ->; contradiction.
  - destruct Hin as [E|Hin]; [contradiction|]; f_equal; now apply IH.
Qed.

Lemma worker_settle_invariant r heading detail s :
  heading = "Service Worker registered with scope:" \/
  heading = "Service Worker registration failed:" ->
  worker_invariant s ->
  worker_invariant (Worker.settle r [heading; detail] s) /\
  Worker.calls (Worker.settle r [heading; detail] s) = Worker.calls s.
Proof.
  intros Hh (Hnd & Hlt & Hreg & Hlog & Hok); unfold Worker.settle.
  destruct (existsb (Nat.eqb r) (Worker.pending s)) eqn:E;
    [|split; [now repeat split | reflexivity]].
  apply existsb_exists in E; destruct E as (q & Hq & Eq).
  apply Nat.eqb_eq in Eq; subst q.
  split; [|reflexivity]; repeat split; simpl.
  - now apply NoDup_filter.
  - apply Forall_forall; intros q Hin; apply filter_In in Hin.
    now apply (proj1 (Forall_forall _ _) Hlt).
  - rewrite filter_app, length_app; simpl; lia.
  - rewrite filter_app, length_app; simpl.
    pose proof (worker_filter_one r (Worker.pending s) Hnd Hq); lia.
  - apply Forall_app; split; [assumption|].
    constructor; [exact Hh | constructor].
Qed.

Lemma worker_step_invariant supported s ev :
  worker_invariant s ->
  worker_invariant (Worker.step supported s ev) /\
  Worker.calls (Worker.step supported s ev)
  = Worker.calls s + (if supported && Worker.is_load ev then 1 else 0).
Proof.
  intros Hi; destruct ev as [|r scope|r error]; simpl.
  - destruct supported; simpl; [|split; [assumption | lia]].
    destruct Hi as (Hnd & Hlt & Hreg & Hlog & Hok).
    split; [|lia]; unfold Worker.on_load; repeat split; simpl.
    + apply NoDup_app;
        [assumption | constructor; [intros [] | constructor] |].
      intros a Ha [<-|[]].
      apply (proj1 (Forall_forall _ _) Hlt) in Ha; lia.
    + apply Forall_app; split; [|repeat constructor].
      eapply Forall_impl; [|exact Hlt]; simpl; intros; lia.
    + rewrite filter_app, length_app; simpl; lia.
    + rewrite filter_app, !length_app; simpl; lia.
    + apply Forall_app; split; [assumption|].
      constructor; [reflexivity | constructor].
  - rewrite andb_false_r, Nat.add_0_r.
    apply worker_settle_invariant; [now left | assumption].
  - rewrite andb_false_r, Nat.add_0_r.
    apply worker_settle_invariant; [now right | assumption].
Qed.

(** On a trace as a host delivers it, from a state whose pending
    promises are the calls made and not settled, every event writes its
    one line. *)
Lemma worker_orderly_run : forall evs s done,
  (forall r, In r (Worker.pending s) <-> r < Worker.calls s /\ ~ In r done) ->
  (forall r, In r done -> r < Worker.calls s) ->
  Worker.orderly (Worker.calls s) done evs = true ->
  Worker.output (Worker.run true s evs) = Worker.output s ++ map Worker.render evs.
Proof.
  assert (Hsettle : forall r line s done t,
    (forall q, In q (Worker.pending s) <-> q < Worker.calls s /\ ~ In q done) ->
    (r <? Worker.calls s) && negb (existsb (Nat.eqb r) done)
    && Worker.orderly (Worker.calls s) (r :: done) t = true ->
    let s' := Worker.settle r line s in
    Worker.output s' = Worker.output s ++ [Worker.Log line] /\
    Worker.calls s' = Worker.calls s /\
    (forall q, In q (Worker.pending s') <-> q < Worker.calls s' /\ ~ In q (r :: done)) /\
    r < Worker.calls s /\
    Worker.orderly (Worker.calls s') (r :: done) t = true).
  { intros r line s done t Hp Ho s'.
    apply andb_true_iff in Ho; destruct Ho as [Ho Ht].
    apply andb_true_iff in Ho; destruct Ho as [Hlt Hnd].
    apply Nat.ltb_lt in Hlt; apply negb_true_iff in Hnd.
    assert (Hnin : ~ In r done).
    { intros Hin; apply (proj2 (not_true_iff_false _) Hnd).
      apply existsb_exists; exists r; split; [assumption | apply Nat.eqb_refl]. }
    assert (Hin : existsb (Nat.eqb r) (Worker.pending s) = true).
    { apply existsb_exists; exists r; split; [|apply Nat.eqb_refl].
      apply Hp; now split. }
    subst s'; unfold Worker.settle; rewrite Hin; cbn.
    split; [reflexivity|]; split; [reflexivity|]; split; [|split; [exact Hlt | exact Ht]].
    intros q; rewrite filter_In, Hp, negb_true_iff, Nat.eqb_neq.
    split.
    - intros [[Hq Hd] Ne]; split; [assumption|].
      intros [E|Hin']; [now apply Ne | now apply Hd].
    - intros [Hq Hd]; split; [split; [assumption|]|].
      + intros Hin'; apply Hd; now right.
      + intros E; apply Hd; now left. }
  induction evs as [|ev t IH]; intros s done Hp Hd Ho.
  - simpl; now rewrite app_nil_r.
  - change (Worker.run true s (ev :: t))
      with (Worker.run true (Worker.step true s ev) t).
    destruct ev as [|r scope|r error].
    + cbn [Worker.step Worker.orderly] in *.
      rewrite (IH (Worker.on_load s) done); cbn;
        [now rewrite <- app_assoc | | | exact Ho].
      * intros r; rewrite in_app_iff, Hp; simpl; split.
        -- intros [[Hr Hn]|[<-|[]]]; [split; [lia | assumption]|].
           split; [lia|].
           intros Hin; apply Hd in Hin; lia.
        -- intros [Hr Hn].
           destruct (Nat.eq_dec r (Worker.calls s)) as [->|Ne];
             [right; now left | left; split; [lia | assumption]].
      * intros r Hin; apply Hd in Hin; lia.
    + cbn [Worker.step Worker.orderly Worker.render map] in *.
      destruct (Hsettle r ["Service Worker registered with scope:"; scope]
                  s done t Hp Ho) as (Eo & Ec & Hp' & Hr & Ho').
      rewrite (IH _ (r :: done) Hp'), Eo, <- ?app_assoc;
        [reflexivity | | exact Ho'].
      intros q [<-|Hin]; rewrite Ec; [exact Hr | now apply Hd].
    + cbn [Worker.step Worker.orderly Worker.render map] in *.
      destruct (Hsettle r ["Service Worker registration failed:"; error]
                  s done t Hp Ho) as (Eo & Ec & Hp' & Hr & Ho').
      rewrite (IH _ (r :: done) Hp'), Eo, <- ?app_assoc;
        [reflexivity | | exact Ho'].
      intros q [<-|Hin]; rewrite Ec; [exact Hr | now apply Hd].
Qed.

(** Registration is fire and forget.  For every sequence of load events
    and settlements: [register] is called once per load event where the
    host has service workers and never otherwise, always for "./sw.js" -
    a failure is followed by no further call; a settlement is logged once,
    under one of the two headings, and nothing else is written.  Where
    every promise settles after its call and once, the output is, event
    by event, the call of [register] for a load event, the line
    'Service Worker registered with scope:' and the scope for a
    fulfilment, the line 'Service Worker registration failed:' and the
    error for a rejection. *)
Theorem worker_fire_and_forget (supported : bool) (evs : list Worker.event) :
  let s := Worker.run supported Worker.init evs in
  List.length (filter Worker.is_register (Worker.output s))
  = (if supported then List.length (filter Worker.is_load evs) else 0) /\
  worker_invariant s /\
  (supported = false -> s = Worker.init) /\
  (supported = true -> Worker.orderly 0 [] evs = true ->
   Worker.output s = map Worker.render evs).
Proof.
  intros s.
  assert (H : forall s0,
             worker_invariant s0 ->
             worker_invariant (Worker.run supported s0 evs) /\
             Worker.calls (Worker.run supported s0 evs)
             = Worker.calls s0
               + (if supported then List.length (filter Worker.is_load evs) else 0)).
  { induction evs as [|ev r IH]; intros s0 H0.
    - simpl; split; [assumption | destruct supported; lia].
    - destruct (worker_step_invariant supported s0 ev H0) as [H1 C1].
      destruct (IH _ H1) as [H2 C2]; split; [assumption|].
      change (Worker.run supported s0 (ev :: r))
        with (Worker.run supported (Worker.step supported s0 ev) r).
      rewrite C2, C1; cbn [filter].
      destruct supported, (Worker.is_load ev); simpl; lia. }
  assert (H0 : worker_invariant Worker.init)
    by (repeat split; simpl; constructor).
  destruct (H Worker.init H0) as [Hi Hc]; fold s in Hi, Hc.
  split; [|split; [exact Hi|split]].
  - destruct Hi as (_ & _ & Hreg & _); rewrite Hreg, Hc; reflexivity.
  - intros ->; subst s; clear.
    induction evs as [|ev r IH]; simpl; [reflexivity|].
    destruct ev; exact IH.
  - intros -> Ho; subst s.
    apply (worker_orderly_run evs Worker.init []); [| |exact Ho].
    + intros r; simpl; split; [intros [] | intros [Hr _]; lia].
    + intros r [].
Qed.

Lemma worker_fire_and_forget_witness :
  Worker.run false Worker.init [Worker.Load; Worker.Rejected 0 "SecurityError"]
  = Worker.init /\
  List.length
    (filter Worker.is_register
       (Worker.output
          (Worker.run true Worker.init
             [Worker.Load; Worker.Rejected 0 "SecurityError"; Worker.Rejected 0 "again"])))
  = 1 /\
  Worker.output
    (Worker.run true Worker.init
       [Worker.Load; Worker.Load; Worker.Rejected 1 "SecurityError";
        Worker.Resolved 0 "https://example.org/"])
  = [Worker.Register "./sw.js"; Worker.Register "./sw.js";
     Worker.Log ["Service Worker registration failed:"; "SecurityError"];
     Worker.Log ["Service Worker registered with scope:"; "https://example.org/"]].
Proof.
  split; [|split].
  - destruct (worker_fire_and_forget false
                [Worker.Load; Worker.Rejected 0 "SecurityError"]) as (_ & _ & H & _).
    exact (H eq_refl).
  - destruct (worker_fire_and_forget true
                [Worker.Load; Worker.Rejected 0 "SecurityError";
                 Worker.Rejected 0 "again"]) as (H & _).
    exact H.
  - destruct (worker_fire_and_forget true
                [Worker.Load; Worker.Load; Worker.Rejected 1 "SecurityError";
                 Worker.Resolved 0 "https://example.org/"]) as (_ & _ & _ & H).
    exact (H eq_refl eq_refl).
Defined.

(** ** One button, one listener *)

(** Whatever the events, on a page whose elements are distinct objects
    and that brings no element with the button's id: the document never
    holds more than one install button, and the button it holds has
    exactly the one click listener of its creation - no signal, timer or
    click registers a second one. *)
Theorem at_most_one_button (v : env) (page : node) (evs : list event) :
  NoDup (handles page) ->
  getElementById installBtnId page = None ->
  let s := run v (boot v page) evs in
  count_id installBtnId (document s) <= 1 /\
  NoDup (handles (document s)) /\
  (forall el, In el (elements (document s)) -> el_id el = installBtnId ->
              onclick el = [InstallClick (handle el)]).
Proof.
  intros Hnd Hb s.
  destruct (invariant_reachable v page evs Hnd Hb) as (H1 & _ & H3 & _ & H4).
  now repeat split.
Qed.

Lemma at_most_one_button_witness :
  let v := safari_mac in
  let s := run v (boot v sample_page)
               (BeforeInstallPrompt 1 :: repeat Tick 1000
                ++ [BeforeInstallPrompt 2; Click 4; Click 4; UserChoice 2 dismissed]
                ++ repeat Tick 1000) in
  count_id installBtnId (document s) <= 1.
Proof.
  intros v s.
  destruct (at_most_one_button v sample_page
              (BeforeInstallPrompt 1 :: repeat Tick 1000
               ++ [BeforeInstallPrompt 2; Click 4; Click 4; UserChoice 2 dismissed]
               ++ repeat Tick 1000)
              sample_page_nodup eq_refl) as [H _].
  exact H.
Defined.
